(** * Quai block-difficulty monitor: height synchronisation loop

    A shallow embedding of the three [package main] programs of the
    repository and the properties of their polling loops:

    - [src/main.go]            persists each new height and pushes a gauge;
    - [src/unnamed/part_001]   persists each new height, no metrics;
    - [src/unnamed/part_000]   pushes the difficulty of the current tip only,
                               with signal handling.

    Heights are Go [*big.Int] values, embedded as [Z].  RPC answers, the
    database and the push gateway are oracles of the environment; every call
    the program makes is recorded in a trace of events. *)

From Stdlib Require Import ZArith List String Bool Lia FinFun Sorted.
From Equations Require Import Equations.
Import ListNotations.

Local Open Scope Z_scope.

(** ** Go integers *)

Module GoInt.

(** [uint64] values are the integers of [0, 2^64). *)
Definition is_uint64 (x : Z) : Prop := 0 <= x < 2 ^ 64.

(** [int64] values are the integers of [-2^63, 2^63). *)
Definition is_int64 (x : Z) : Prop := - 2 ^ 63 <= x < 2 ^ 63.

(** The conversion [int64(x)] of a [uint64]: the 64 bits are kept and read
    as two's complement. *)
Definition int64 (x : Z) : Z := (x + 2 ^ 63) mod 2 ^ 64 - 2 ^ 63.

(** [big.NewInt(x)] allocates a big integer with the value of the [int64]
    [x]. *)
Definition big_NewInt (x : Z) : Z := x.

(** [new(big.Int).SetUint64(x)]. *)
Definition big_SetUint64 (x : Z) : Z := x.

(** The method [Uint64] of a non-nil big integer: the low 64 bits of the
    magnitude.  On a nil receiver it dereferences nil. *)
Definition big_Uint64 (x : Z) : Z := Z.abs x mod 2 ^ 64.

(** The conversion [float64(x)] of a [uint64]: [x] rounded to the nearest
    number with a significand of 53 bits, a tie going to the even
    significand.  The result is a whole number, possibly 2^64, and is kept
    as that integer. *)
Definition float64 (x : Z) : Z :=
  if x <? 2 ^ 53 then x
  else
    let e := Z.log2 x - 52 in
    let q := x / 2 ^ e in
    let r := x mod 2 ^ e in
    let half := 2 ^ (e - 1) in
    if r <? half then q * 2 ^ e
    else if half <? r then (q + 1) * 2 ^ e
    else if Z.even q then q * 2 ^ e
    else (q + 1) * 2 ^ e.

(** [time.Duration(interval) * time.Second]: nanoseconds in an [int64], the
    product wrapping around. *)
Definition tickerDuration (interval : Z) : Z := int64 (interval * 1000000000).

End GoInt.
Import GoInt.

(** ** Collaborators *)

(** A Go [(value, error)] pair. *)
Inductive result (A : Type) : Type :=
| Ok (a : A)
| Err (e : string).
Arguments Ok {A} a.
Arguments Err {A} e.

(** What the program reads from a header it was handed with a nil error: the
    two [*big.Int] pointers behind [Difficulty()] and [Number()], either of
    which may be nil ([None]). *)
Record header : Type := mkHeader {
  Difficulty : option Z;
  Number : option Z
}.

Inductive logline : Type :=
| LogBlockNumberFailed
| LogHeaderFailed (height : Z)
| LogInsertFailed (blockNumber : Z)
| LogInserted (blockNumber difficulty : Z)
| LogPushFailed
| LogPushed (difficulty : Z)
| LogNilDifficulty (blockNumber : Z)
| LogShutdown.

(** Calls on the collaborators, in program order. *)
Inductive event : Type :=
| CallBlockNumber
| CallHeaderByNumber (height : Z)
| CallDbExec (blockNumber difficulty : Z)
| CallGaugeSet (value : Z)          (* the float64 handed over, a whole number *)
| CallPush (gateway : string)
| Log (l : logline).

(** The answers of the outside world during one tick.  Within a tick every
    height is asked for at most once, so the answers of the store and of the
    gateway are indexed by the height being processed. *)
Record cycle_env : Type := mkEnv {
  blockNumber : result Z;                (* client.BlockNumber(ctx), uint64 *)
  headerByNumber : Z -> result header;   (* client.HeaderByNumber(ctx, h)   *)
  dbExec : Z -> result unit;             (* db.Exec(INSERT ...)             *)
  pushNow : Z -> result unit             (* push.New(...)...Push()          *)
}.

(** The two persisting programs differ only in the tail of the loop body. *)
Inductive variant : Type :=
| PersistOnly                            (* src/unnamed/part_001 *)
| PersistAndPush (pushGateway : string). (* src/main.go          *)

(** How one iteration of the per-height loop ends. *)
Inductive step : Type :=
| Normal        (* fall through or [continue]: the post statement runs *)
| NilDeref.     (* nil pointer dereference: the goroutine panics       *)

(** How a tick, or the process, ends. *)
Inductive outcome : Type :=
| Completed (lastHeight : Z)
| Panicked.

(** ** The per-height loop of [src/main.go] and [src/unnamed/part_001] *)

Section HeightLoop.

Variable v : variant.
Variable env : cycle_env.

(** main.go, lines 101-113: set the gauge to [float64(difficulty)] and
    push; part_001 has no such code. *)
Definition exportMetric (height difficulty : Z) : list event :=
  match v with
  | PersistOnly => []
  | PersistAndPush pushGateway =>
      [CallGaugeSet (float64 difficulty); CallPush pushGateway;
       Log (match pushNow env height with
            | Err _ => LogPushFailed
            | Ok _ => LogPushed difficulty
            end)]
  end.

(** One iteration of the loop body (main.go, lines 83-113). *)
Definition processHeight (height : Z) : step * list event :=
  match headerByNumber env height with
  | Err _ =>
      (Normal, [CallHeaderByNumber height; Log (LogHeaderFailed height)])
  | Ok hdr =>
      match Difficulty hdr with
      | None => (NilDeref, [CallHeaderByNumber height])
      | Some d =>
          let difficulty := big_Uint64 d in
          match Number hdr with
          | None => (NilDeref, [CallHeaderByNumber height])
          | Some n =>
              let blockNumber := big_Uint64 n in
              match dbExec env height with
              | Err _ =>
                  (Normal,
                   [CallHeaderByNumber height;
                    CallDbExec blockNumber difficulty;
                    Log (LogInsertFailed blockNumber)])
              | Ok _ =>
                  (Normal,
                   [CallHeaderByNumber height;
                    CallDbExec blockNumber difficulty;
                    Log (LogInserted blockNumber difficulty)]
                     ++ exportMetric height difficulty)
              end
          end
      end
  end.

Variable currentHeight : Z.

(** [for height := lastHeight+1; height.Cmp(currentHeight) <= 0;
    height.Add(height, 1) { ... }], entered with the loop variable at
    [height].  The distance to [currentHeight] shrinks with every
    iteration. *)
Equations? heightLoop (height : Z) : step * list event
  by wf (Z.to_nat (currentHeight + 1 - height)) lt :=
  heightLoop height with Z_le_gt_dec height currentHeight := {
    | right _ => (Normal, []);
    | left _ with processHeight height := {
        | (NilDeref, tr) => (NilDeref, tr);
        | (Normal, tr) =>
            (fst (heightLoop (height + 1)), tr ++ snd (heightLoop (height + 1)))
      }
  }.
Proof. all: lia. Qed.

End HeightLoop.

(** One tick of the polling loop (main.go, lines 72-119). *)
Definition syncCycle (v : variant) (env : cycle_env) (lastHeight : Z)
  : outcome * list event :=
  match blockNumber env with
  | Err _ => (Completed lastHeight, [CallBlockNumber; Log LogBlockNumberFailed])
  | Ok currentBlockNumber =>
      let currentHeight := big_NewInt (int64 currentBlockNumber) in
      if currentHeight >? lastHeight then
        match heightLoop v env currentHeight (lastHeight + 1) with
        | (Normal, tr) => (Completed currentHeight, CallBlockNumber :: tr)
        | (NilDeref, tr) => (Panicked, CallBlockNumber :: tr)
        end
      else (Completed lastHeight, [CallBlockNumber])
  end.


(** The tip as the program holds it: [big.NewInt(int64(currentBlockNumber))]
    (main.go, lines 56 and 79). *)
Definition observedTip (currentBlockNumber : Z) : Z :=
  big_NewInt (int64 currentBlockNumber).

(** How far a process has got. *)
Inductive status : Type :=
| Returned      (* [main] returned: exit status 0           *)
| Fatal         (* [log.Fatalf]: exit status 1              *)
| Receiving     (* blocked in a channel receive             *)
| Crashed.      (* unrecovered panic: the runtime aborts    *)

(** [for range ticker.C { ... }] (main.go, lines 71-120).  The ticker's
    channel is never closed and the body has neither [break] nor [return]:
    once the ticks delivered so far are consumed the loop is receiving
    again.  The second component is [lastHeight] at that point. *)
Fixpoint pollLoop (v : variant) (ticks : list cycle_env) (lastHeight : Z)
  : status * Z * list event :=
  match ticks with
  | [] => (Receiving, lastHeight, [])
  | env :: rest =>
      match syncCycle v env lastHeight with
      | (Completed h, tr) =>
          let '(s, h', tr') := pollLoop v rest h in (s, h', tr ++ tr')
      | (Panicked, tr) => (Crashed, lastHeight, tr)
      end
  end.

Definition heightAfter (v : variant) (ticks : list cycle_env) (w : Z) : Z :=
  snd (fst (pollLoop v ticks w)).

(** *** Start-up of the persisting programs *)

(** The answers of the outside world while [main] sets up. *)
Record launch_env : Type := mkLaunch {
  dial : result unit;               (* ethclient.Dial(rpc)     *)
  sqlOpen : result unit;            (* sql.Open(mysql, dsn)    *)
  blockNumberAtLaunch : result Z    (* client.BlockNumber(ctx) *)
}.

Inductive launch : Type :=
| FatalExit
| Polling (lastHeight : Z).

(** The default of the [-start] flag. *)
Definition defaultStart : Z := -1.

(** main.go, lines 48-57. *)
Definition initialHeight (startHeight : Z) (tip : result Z) : launch :=
  if startHeight >=? 0 then Polling (big_NewInt startHeight)
  else match tip with
       | Err _ => FatalExit
       | Ok blockNumber => Polling (big_NewInt (int64 blockNumber))
       end.

(** main.go, lines 27-57. *)
Definition startup (rpc dsn : string) (startHeight : Z) (e : launch_env)
  : launch :=
  if (rpc =? EmptyString)%string || (dsn =? EmptyString)%string then FatalExit
  else match dial e with
       | Err _ => FatalExit
       | Ok _ =>
           match sqlOpen e with
           | Err _ => FatalExit
           | Ok _ => initialHeight startHeight (blockNumberAtLaunch e)
           end
       end.

(** The whole of [main] in the persisting programs (main.go, lines 18-121);
    [v] carries the [-pushgateway] flag of main.go, which is passed on
    unexamined.  After start-up the ticker is made, [time.NewTicker]
    panicking on a duration that is not positive.  The events are those of
    the polling loop. *)
Definition persistMain (v : variant) (rpc dsn : string) (interval startHeight : Z)
    (e : launch_env) (ticks : list cycle_env) : status * list event :=
  match startup rpc dsn startHeight e with
  | FatalExit => (Fatal, [])
  | Polling lastHeight =>
      if tickerDuration interval <=? 0 then (Crashed, [])
      else (fst (fst (pollLoop v ticks lastHeight)),
            snd (pollLoop v ticks lastHeight))
  end.

(** ** The tip-only program, [src/unnamed/part_000] *)

(** What [connectRPC] does besides returning: its dials, its log lines and
    its sleeps, in program order. *)
Inductive conn_event : Type :=
| Dial (i : nat)                 (* ethclient.Dial(rpcURL), attempt index i *)
| LogConnected
| LogDialFailed (attempt : nat)  (* logged with i+1                         *)
| Sleep (seconds : Z).           (* time.Sleep(5 * time.Second)             *)

(** [connectRPC] (part_000, lines 20-33) with its events: a failed dial is
    logged and followed by a sleep of five seconds, also when it was the
    last one. *)
Fixpoint connectRun (dialAt : nat -> result unit) (remaining i : nat)
  : result unit * list conn_event :=
  match remaining with
  | O => (Err "cannot connect to RPC after several attempts", [])
  | S r =>
      match dialAt i with
      | Ok c => (Ok c, [Dial i; LogConnected])
      | Err _ =>
          (fst (connectRun dialAt r (S i)),
           [Dial i; LogDialFailed (S i); Sleep 5] ++ snd (connectRun dialAt r (S i)))
      end
  end.

Module TipGauge.

(** [connectRPC]: up to five dials, the answer of the i-th given by
    [dialAt i]; [remaining] is [5 - i]. *)
Fixpoint connectLoop (dialAt : nat -> result unit) (remaining i : nat)
  : result unit :=
  match remaining with
  | O => Err "cannot connect to RPC after several attempts"
  | S r =>
      match dialAt i with
      | Ok c => Ok c
      | Err _ => connectLoop dialAt r (S i)
      end
  end.

Definition connectRPC (dialAt : nat -> result unit) : result unit :=
  connectLoop dialAt 5 0.

(** The body of [case <-ticker.C] (lines 74-120): every path ends the
    iteration, none leaves the loop. *)
Definition pollOnce (pushGateway : string) (env : cycle_env) : list event :=
  match blockNumber env with
  | Err _ => [CallBlockNumber; Log LogBlockNumberFailed]
  | Ok currentBlockNumber =>
      let blockNumberBig := big_SetUint64 currentBlockNumber in
      match headerByNumber env blockNumberBig with
      | Err _ =>
          [CallBlockNumber; CallHeaderByNumber blockNumberBig;
           Log (LogHeaderFailed currentBlockNumber)]
      | Ok hdr =>
          match Difficulty hdr with
          | None =>
              [CallBlockNumber; CallHeaderByNumber blockNumberBig;
               Log (LogNilDifficulty currentBlockNumber)]
          | Some difficultyBig =>
              let difficulty := big_Uint64 difficultyBig in
              [CallBlockNumber; CallHeaderByNumber blockNumberBig;
               CallGaugeSet (float64 difficulty); CallPush pushGateway;
               Log (match pushNow env blockNumberBig with
                    | Err _ => LogPushFailed
                    | Ok _ => LogPushed difficulty
                    end)]
          end
      end
  end.

(** What a [select] of the main loop picked. *)
Inductive selected : Type :=
| TickerC (env : cycle_env)   (* case <-ticker.C *)
| Quit.                       (* case <-quit     *)

(** [for { select { ... } }] (lines 71-126). *)
Fixpoint mainLoop (pushGateway : string) (sel : list selected)
  : status * list event :=
  match sel with
  | [] => (Receiving, [])
  | TickerC env :: rest =>
      (fst (mainLoop pushGateway rest),
       pollOnce pushGateway env ++ snd (mainLoop pushGateway rest))
  | Quit :: _ => (Returned, [Log LogShutdown])
  end.

(** [main] of part_000 (lines 35-127): the flags are checked, then
    [connectRPC] dials, then the gauge is registered and the ticker made,
    [time.NewTicker] panicking on a duration that is not positive, and then
    the loop runs.  The result holds the events of [connectRPC] and the
    events of the loop. *)
Definition main (rpc pushGateway : string) (interval : Z)
    (dialAt : nat -> result unit) (sel : list selected)
  : status * list conn_event * list event :=
  if (rpc =? EmptyString)%string || (pushGateway =? EmptyString)%string
  then (Fatal, [], [])
  else match fst (connectRun dialAt 5 0) with
       | Err _ => (Fatal, snd (connectRun dialAt 5 0), [])
       | Ok _ =>
           if tickerDuration interval <=? 0
           then (Crashed, snd (connectRun dialAt 5 0), [])
           else (fst (mainLoop pushGateway sel),
                 snd (connectRun dialAt 5 0),
                 snd (mainLoop pushGateway sel))
       end.

End TipGauge.

(** ** Reading traces *)

(** The heights handed to [HeaderByNumber], in call order. *)
Definition fetchedHeights (tr : list event) : list Z :=
  flat_map (fun ev => match ev with CallHeaderByNumber h => [h] | _ => [] end) tr.

(** The rows handed to [db.Exec], in call order. *)
Definition ledgerCalls (tr : list event) : list (Z * Z) :=
  flat_map (fun ev => match ev with CallDbExec n d => [(n, d)] | _ => [] end) tr.

(** The rows the store accepted. *)
Definition persisted (tr : list event) : list (Z * Z) :=
  flat_map (fun ev => match ev with
                      | Log (LogInserted n d) => [(n, d)]
                      | _ => []
                      end) tr.

(** Gauge updates and pushes, in call order. *)
Definition metricCalls (tr : list event) : list event :=
  filter (fun ev => match ev with
                    | CallGaugeSet _ | CallPush _ => true
                    | _ => false
                    end) tr.

(** ** Vocabulary of the specification *)

(** The gap [(w, t]]: the heights [w+1, w+2, ..., t]. *)
Definition gap (w t : Z) : list Z :=
  map (fun i => w + 1 + Z.of_nat i) (seq 0 (Z.to_nat (t - w))).

(** A fetched header is usable when neither pointer read from it is nil; a
    failed fetch hands over no header. *)
Definition usableHeader (env : cycle_env) (h : Z) : bool :=
  match headerByNumber env h with
  | Err _ => true
  | Ok hdr =>
      match Difficulty hdr, Number hdr with
      | Some _, Some _ => true
      | _, _ => false
      end
  end.

Definition headersUsable (env : cycle_env) (w t : Z) : bool :=
  forallb (usableHeader env) (gap w t).

(** Height [h] fails when its header cannot be fetched or its row is
    rejected. *)
Definition heightFails (env : cycle_env) (h : Z) : bool :=
  match headerByNumber env h with
  | Err _ => true
  | Ok _ => match dbExec env h with Err _ => true | Ok _ => false end
  end.

(** The events of the iterations for the heights of [l], one after the
    other. *)
Definition iterations (v : variant) (env : cycle_env) (l : list Z) : list event :=
  flat_map (fun k => snd (processHeight v env k)) l.

(** The difficulty the loop reads at height [h], when there is one. *)
Definition difficultyAt (env : cycle_env) (h : Z) : Z :=
  match headerByNumber env h with
  | Ok hdr => match Difficulty hdr with Some d => big_Uint64 d | None => 0 end
  | Err _ => 0
  end.

(** ** Scenarios *)

Definition always {A : Type} (a : A) : Z -> result A := fun _ => Ok a.

(** Tip 103; headers 101, 102, 103 carry difficulties 5, 6, 7. *)
Definition scenarioSteady : cycle_env :=
  mkEnv (Ok 103)
        (fun h => Ok (mkHeader (Some (h - 96)) (Some h)))
        (always tt) (always tt).

(** Tip 102; the fetch of 101 fails, 102 carries difficulty 9. *)
Definition scenarioFetchFails : cycle_env :=
  mkEnv (Ok 102)
        (fun h => if h =? 101 then Err "not found"
                  else Ok (mkHeader (Some 9) (Some h)))
        (always tt) (always tt).

(** Tip 103; the store rejects the row of 102. *)
Definition scenarioInsertFails : cycle_env :=
  mkEnv (Ok 103)
        (fun h => Ok (mkHeader (Some (h - 96)) (Some h)))
        (fun h => if h =? 102 then Err "duplicate entry" else Ok tt)
        (always tt).

(** Tip 103; every fetch fails. *)
Definition scenarioAllFetchesFail : cycle_env :=
  mkEnv (Ok 103) (fun _ => Err "timeout") (always tt) (always tt).

(** The tip query fails. *)
Definition scenarioTipFails : cycle_env :=
  mkEnv (Err "connection refused")
        (fun h => Ok (mkHeader (Some 5) (Some h)))
        (always tt) (always tt).

(** Tip 102; the header of 101 comes without a difficulty. *)
Definition scenarioNilDifficulty : cycle_env :=
  mkEnv (Ok 102)
        (fun h => Ok (mkHeader (if h =? 101 then None else Some 9) (Some h)))
        (always tt) (always tt).

(** Tip 101; the header of 101 carries the difficulty 2^53 + 1. *)
Definition scenarioHugeDifficulty : cycle_env :=
  mkEnv (Ok 101)
        (fun h => Ok (mkHeader (Some (2 ^ 53 + 1)) (Some h)))
        (always tt) (always tt).

(** The node reports the tip 2^63. *)
Definition scenarioHugeTip : cycle_env :=
  mkEnv (Ok (2 ^ 63))
        (fun h => Ok (mkHeader (Some 5) (Some h)))
        (always tt) (always tt).

(** ** Observing [connectRPC] and whole runs *)

(** The attempt indices dialled, in order. *)
Definition dialsOf (tr : list conn_event) : list nat :=
  flat_map (fun ev => match ev with Dial i => [i] | _ => [] end) tr.

(** The seconds slept in all. *)
Definition sleepSeconds (tr : list conn_event) : Z :=
  fold_right (fun ev acc => match ev with Sleep n => n + acc | _ => acc end) 0 tr.

(** The calls on the collaborators, log lines left out. *)
Definition calls (tr : list event) : list event :=
  filter (fun ev => match ev with Log _ => false | _ => true end) tr.

(** The values handed to the gauge, in call order. *)
Definition gaugeValues (tr : list event) : list Z :=
  flat_map (fun ev => match ev with CallGaugeSet d => [d] | _ => [] end) tr.

(** The gateways pushed to, in call order. *)
Definition pushTargets (tr : list event) : list string :=
  flat_map (fun ev => match ev with CallPush g => [g] | _ => [] end) tr.

(** The number of tip queries. *)
Definition tipQueries (tr : list event) : nat :=
  List.length (filter (fun ev => match ev with CallBlockNumber => true | _ => false end) tr).

(** The environment [env] with the answers of the push gateway replaced. *)
Definition withPush (env : cycle_env) (p : Z -> result unit) : cycle_env :=
  mkEnv (blockNumber env) (headerByNumber env) (dbExec env) p.

(** The highest of [w] and the tips observed in [ticks]. *)
Definition highestTip (ticks : list cycle_env) (w : Z) : Z :=
  fold_left (fun acc env => match blockNumber env with
                            | Ok T => Z.max acc (observedTip T)
                            | Err _ => acc
                            end) ticks w.

(** The row the loop hands to the store for a header. *)
Definition rowOf (hdr : header) : list (Z * Z) :=
  match Difficulty hdr, Number hdr with
  | Some d, Some n => [(big_Uint64 n, big_Uint64 d)]
  | _, _ => []
  end.

(** The first two dials are refused, the third connects. *)
Definition dialThird : nat -> result unit :=
  fun i => if (i <? 2)%nat then Err "connection refused" else Ok tt.

(** Every dial is refused. *)
Definition dialNever : nat -> result unit := fun _ => Err "connection refused".

(** The answers at launch when everything works and the tip is 345. *)
Definition launchFine : launch_env := mkLaunch (Ok tt) (Ok tt) (Ok 345).

(** At launch the node is reachable but does not answer the tip query. *)
Definition launchNoTip : launch_env :=
  mkLaunch (Ok tt) (Ok tt) (Err "timeout").

(** The tip a tick of the tip-only program fetches, when its query is
    answered. *)
Definition tipOf (env : cycle_env) : list Z :=
  match blockNumber env with
  | Ok T => [big_SetUint64 T]
  | Err _ => []
  end.

(** The difficulty a tick of the tip-only program exports, when it gets that
    far. *)
Definition tipDifficulty (env : cycle_env) : list Z :=
  match blockNumber env with
  | Ok T =>
      match headerByNumber env (big_SetUint64 T) with
      | Ok hdr =>
          match Difficulty hdr with
          | Some d => [float64 (big_Uint64 d)]
          | None => []
          end
      | Err _ => []
      end
  | Err _ => []
  end.

(** * Properties *)

(** ** Integer conversions *)

Lemma int64_small (x : Z) : 0 <= x < 2 ^ 63 -> int64 x = x.
Proof.
  intros Hx. unfold int64.
  rewrite Z.mod_small by lia. lia.
Qed.


Lemma int64_range (x : Z) : is_int64 (int64 x).
Proof.
  unfold is_int64, int64.
  pose proof (Z.mod_pos_bound (x + 2 ^ 63) (2 ^ 64) ltac:(lia)). lia.
Qed.

(** ** The gap *)

Lemma gap_empty (w t : Z) : t <= w -> gap w t = [].
Proof.
  intros H. unfold gap.
  replace (Z.to_nat (t - w)) with O by lia. reflexivity.
Qed.

Lemma gap_step (w t : Z) : w < t -> gap w t = (w + 1) :: gap (w + 1) t.
Proof.
  intros H. unfold gap.
  replace (Z.to_nat (t - w)) with (S (Z.to_nat (t - (w + 1)))) by lia.
  cbn [seq map]. f_equal; [lia|].
  rewrite <- seq_shift, map_map.
  apply map_ext. intros i. lia.
Qed.

Lemma gap_length (w t : Z) : List.length (gap w t) = Z.to_nat (t - w).
Proof. unfold gap. now rewrite length_map, length_seq. Qed.

Lemma gap_In (w t h : Z) : In h (gap w t) <-> w < h <= t.
Proof.
  unfold gap. rewrite in_map_iff. split.
  - intros (i & <- & Hi). apply in_seq in Hi. lia.
  - intros Hh. exists (Z.to_nat (h - w - 1)). split; [lia|].
    apply in_seq. lia.
Qed.

Lemma gap_nth (w t : Z) (i : nat) :
  (i < Z.to_nat (t - w))%nat -> nth i (gap w t) 0 = w + 1 + Z.of_nat i.
Proof.
  intros Hi. unfold gap.
  apply nth_error_nth.
  rewrite nth_error_map.
  rewrite (nth_error_nth' _ O) by (rewrite length_seq; exact Hi).
  rewrite seq_nth by exact Hi. reflexivity.
Qed.

Lemma gap_split (w h t : Z) :
  w <= h <= t -> gap w t = gap w h ++ gap h t.
Proof.
  intros Hh.
  remember (Z.to_nat (h - w)) as n eqn:Hn.
  revert w Hn Hh. induction n as [|n IH]; intros w Hn Hh.
  - assert (w = h) by lia. subst. now rewrite (gap_empty h h) by lia.
  - rewrite (gap_step w t), (gap_step w h) by lia.
    cbn [app]. f_equal. apply IH; lia.
Qed.

(** ** One iteration *)

Section Iteration.

Variable v : variant.
Variable env : cycle_env.

Lemma processHeight_fetches (h : Z) :
  fetchedHeights (snd (processHeight v env h)) = [h].
Proof.
  unfold processHeight, exportMetric.
  destruct (headerByNumber env h) as [[[d|] [n|]]|e]; try reflexivity.
  destruct (dbExec env h); destruct v; reflexivity.
Qed.

Lemma processHeight_usable (h : Z) :
  usableHeader env h = true -> fst (processHeight v env h) = Normal.
Proof.
  unfold usableHeader, processHeight.
  destruct (headerByNumber env h) as [[[d|] [n|]]|e]; try discriminate;
    try reflexivity.
  intros _. destruct (dbExec env h); reflexivity.
Qed.

Lemma processHeight_fails (h : Z) :
  heightFails env h = true ->
  persisted (snd (processHeight v env h)) = [] /\
  metricCalls (snd (processHeight v env h)) = [].
Proof.
  unfold heightFails, processHeight.
  destruct (headerByNumber env h) as [[[d|] [n|]]|e]; try (split; reflexivity).
  destruct (dbExec env h); [discriminate|]. split; reflexivity.
Qed.

Variable currentHeight : Z.

(** The loop, one test of its condition at a time. *)
Lemma heightLoop_eq (h : Z) :
  heightLoop v env currentHeight h =
  if h <=? currentHeight then
    match processHeight v env h with
    | (NilDeref, tr) => (NilDeref, tr)
    | (Normal, tr) =>
        (fst (heightLoop v env currentHeight (h + 1)),
         tr ++ snd (heightLoop v env currentHeight (h + 1)))
    end
  else (Normal, []).
Proof.
  rewrite heightLoop_unfold_eq. unfold heightLoop_unfold.
  destruct (Z_le_gt_dec h currentHeight) as [Hle|Hgt]; cbn.
  - replace (h <=? currentHeight) with true by lia.
    destruct (processHeight v env h) as [[|] tr]; cbn; reflexivity.
  - replace (h <=? currentHeight) with false by lia. reflexivity.
Qed.

End Iteration.

(** ** Traces of concatenations *)

Lemma fetchedHeights_app (a b : list event) :
  fetchedHeights (a ++ b) = fetchedHeights a ++ fetchedHeights b.
Proof. apply flat_map_app. Qed.

Lemma persisted_app (a b : list event) :
  persisted (a ++ b) = persisted a ++ persisted b.
Proof. apply flat_map_app. Qed.

Lemma metricCalls_app (a b : list event) :
  metricCalls (a ++ b) = metricCalls a ++ metricCalls b.
Proof. apply filter_app. Qed.

Lemma fetchedHeights_iterations (v : variant) (env : cycle_env) (l : list Z) :
  fetchedHeights (iterations v env l) = l.
Proof.
  induction l as [|k l IH]; [reflexivity|].
  unfold iterations in *. cbn [flat_map].
  rewrite fetchedHeights_app, processHeight_fetches, IH. reflexivity.
Qed.

Lemma headersUsable_spec (env : cycle_env) (w t : Z) :
  headersUsable env w t = true <->
  (forall h, w < h <= t -> usableHeader env h = true).
Proof.
  unfold headersUsable. rewrite forallb_forall.
  split; intros H h Hh; apply H; apply gap_In; exact Hh.
Qed.

(** ** The loop as a whole *)

Section Loop.

Variable v : variant.
Variable env : cycle_env.
Variable currentHeight : Z.

(** With usable headers the loop runs one iteration for each height from
    its entry point up to [currentHeight] and leaves by its condition. *)
Lemma heightLoop_runs (h : Z) :
  (forall k, h <= k <= currentHeight -> usableHeader env k = true) ->
  heightLoop v env currentHeight h =
  (Normal, iterations v env (gap (h - 1) currentHeight)).
Proof.
  remember (Z.to_nat (currentHeight + 1 - h)) as n eqn:Hn.
  revert h Hn. induction n as [|n IH]; intros h Hn Hus;
    rewrite heightLoop_eq.
  - replace (h <=? currentHeight) with false by lia.
    rewrite gap_empty by lia. reflexivity.
  - replace (h <=? currentHeight) with true by lia.
    pose proof (processHeight_usable v env h (Hus h ltac:(lia))) as Hn'.
    destruct (processHeight v env h) as [st tr] eqn:Hp.
    cbn in Hn'. subst st.
    rewrite (IH (h + 1)) by (try lia; intros k Hk; apply Hus; lia).
    rewrite (gap_step (h - 1) currentHeight) by lia.
    replace (h - 1 + 1) with h by lia.
    replace (h + 1 - 1) with h by lia.
    unfold iterations. cbn [flat_map fst snd]. rewrite Hp. reflexivity.
Qed.

(** Whatever the headers, the heights fetched are an initial segment of
    the heights that lie ahead: none is skipped, none comes twice, none
    out of order. *)
Lemma heightLoop_fetches_prefix (h : Z) :
  exists k : nat,
    fetchedHeights (snd (heightLoop v env currentHeight h)) =
    firstn k (gap (h - 1) currentHeight).
Proof.
  remember (Z.to_nat (currentHeight + 1 - h)) as n eqn:Hn.
  revert h Hn. induction n as [|n IH]; intros h Hn;
    rewrite heightLoop_eq.
  - replace (h <=? currentHeight) with false by lia.
    exists O. reflexivity.
  - replace (h <=? currentHeight) with true by lia.
    pose proof (processHeight_fetches v env h) as Hf.
    rewrite (gap_step (h - 1) currentHeight) by lia.
    replace (h - 1 + 1) with h by lia.
    destruct (processHeight v env h) as [[|] tr]; cbn [fst snd] in *.
    + destruct (IH (h + 1) ltac:(lia)) as [k Hk].
      exists (S k). rewrite fetchedHeights_app, Hf, Hk.
      replace (h + 1 - 1) with h by lia. reflexivity.
    + exists 1%nat. rewrite Hf. reflexivity.
Qed.

(** A header that comes without difficulty or number stops the loop at its
    height, after the iterations of the heights before it. *)
Lemma heightLoop_crashes (h0 h : Z) (hdr : header) :
  h0 <= h <= currentHeight ->
  (forall k, h0 <= k < h -> usableHeader env k = true) ->
  headerByNumber env h = Ok hdr ->
  Difficulty hdr = None \/ Number hdr = None ->
  heightLoop v env currentHeight h0 =
  (NilDeref, iterations v env (gap (h0 - 1) (h - 1)) ++ [CallHeaderByNumber h]).
Proof.
  intros Hh Hus Hhdr Hnil.
  remember (Z.to_nat (h - h0)) as n eqn:Hn.
  revert h0 Hn Hh Hus. induction n as [|n IH]; intros h0 Hn Hh Hus;
    rewrite heightLoop_eq; replace (h0 <=? currentHeight) with true by lia.
  - assert (h0 = h) by lia. subst h0.
    rewrite gap_empty by lia.
    unfold processHeight. rewrite Hhdr.
    destruct Hnil as [-> | Hnum]; [reflexivity|].
    rewrite Hnum. destruct (Difficulty hdr); reflexivity.
  - pose proof (processHeight_usable v env h0 (Hus h0 ltac:(lia))) as Hn'.
    destruct (processHeight v env h0) as [st tr] eqn:Hp.
    cbn in Hn'. subst st.
    rewrite (IH (h0 + 1)) by (try lia; intros k Hk; apply Hus; lia).
    rewrite (gap_step (h0 - 1) (h - 1)) by lia.
    replace (h0 - 1 + 1) with h0 by lia.
    replace (h0 + 1 - 1) with h0 by lia.
    unfold iterations. cbn [flat_map fst snd]. rewrite Hp. cbn [snd].
    now rewrite app_assoc.
Qed.

(** A height that fails costs its own iteration only: the loop goes on
    with the next height. *)
Lemma heightLoop_skips (h : Z) :
  h <= currentHeight ->
  usableHeader env h = true ->
  heightLoop v env currentHeight h =
  (fst (heightLoop v env currentHeight (h + 1)),
   snd (processHeight v env h) ++ snd (heightLoop v env currentHeight (h + 1))).
Proof.
  intros Hle Hus. rewrite heightLoop_eq at 1.
  replace (h <=? currentHeight) with true by lia.
  pose proof (processHeight_usable v env h Hus) as Hn.
  destruct (processHeight v env h) as [st tr]. cbn in Hn. subst st.
  reflexivity.
Qed.

End Loop.

(** ** One tick *)

Lemma syncCycle_tip_failed (v : variant) (env : cycle_env) (w : Z) (e : string) :
  blockNumber env = Err e ->
  syncCycle v env w = (Completed w, [CallBlockNumber; Log LogBlockNumberFailed]).
Proof. intros H. unfold syncCycle. rewrite H. reflexivity. Qed.

Lemma syncCycle_stale (v : variant) (env : cycle_env) (w T : Z) :
  blockNumber env = Ok T -> observedTip T <= w ->
  syncCycle v env w = (Completed w, [CallBlockNumber]).
Proof.
  intros H Hle. unfold syncCycle. rewrite H. fold (observedTip T). cbv zeta.
  replace (observedTip T >? w) with false by lia. reflexivity.
Qed.

Lemma syncCycle_gap (v : variant) (env : cycle_env) (w T : Z) :
  blockNumber env = Ok T -> w < observedTip T ->
  headersUsable env w (observedTip T) = true ->
  syncCycle v env w =
  (Completed (observedTip T),
   CallBlockNumber :: iterations v env (gap w (observedTip T))).
Proof.
  intros H Hlt Hus. unfold syncCycle. rewrite H. fold (observedTip T). cbv zeta.
  replace (observedTip T >? w) with true by lia.
  rewrite heightLoop_runs.
  - replace (w + 1 - 1) with w by lia. reflexivity.
  - intros k Hk. apply (proj1 (headersUsable_spec env w (observedTip T)) Hus). lia.
Qed.

Lemma syncCycle_fetches_prefix (v : variant) (env : cycle_env) (w T : Z) :
  blockNumber env = Ok T -> w < observedTip T ->
  exists k : nat,
    fetchedHeights (snd (syncCycle v env w)) = firstn k (gap w (observedTip T)).
Proof.
  intros H Hlt. unfold syncCycle. rewrite H. fold (observedTip T). cbv zeta.
  replace (observedTip T >? w) with true by lia.
  destruct (heightLoop_fetches_prefix v env (observedTip T) (w + 1)) as [k Hk].
  replace (w + 1 - 1) with w in Hk by lia.
  exists k. destruct (heightLoop v env (observedTip T) (w + 1)) as [[|] tr];
    exact Hk.
Qed.

(** A tick that completes leaves [lastHeight] where it was or at the tip. *)
Lemma syncCycle_completed (v : variant) (env : cycle_env) (w w' : Z) :
  fst (syncCycle v env w) = Completed w' ->
  w' = w \/
  (exists T, blockNumber env = Ok T /\ w < observedTip T /\ w' = observedTip T).
Proof.
  unfold syncCycle. destruct (blockNumber env) as [T|e].
  - fold (observedTip T). cbv zeta.
    destruct (observedTip T >? w) eqn:Hc.
    + destruct (heightLoop v env (observedTip T) (w + 1)) as [[|] tr]; cbn.
      * intros [= <-]. right. exists T. repeat split; lia.
      * discriminate.
    + cbn. intros [= <-]. now left.
  - cbn. intros [= <-]. now left.
Qed.

(** ** The run *)

Lemma heightAfter_nil (v : variant) (w : Z) : heightAfter v [] w = w.
Proof. reflexivity. Qed.

Lemma heightAfter_cons (v : variant) (env : cycle_env) (rest : list cycle_env) (w : Z) :
  heightAfter v (env :: rest) w =
  match fst (syncCycle v env w) with
  | Completed h => heightAfter v rest h
  | Panicked => w
  end.
Proof.
  unfold heightAfter. cbn [pollLoop].
  destruct (syncCycle v env w) as [[h|] tr]; cbn [fst].
  - destruct (pollLoop v rest h) as [[s h'] tr']. reflexivity.
  - reflexivity.
Qed.

Lemma syncCycle_monotone (v : variant) (env : cycle_env) (w w' : Z) :
  fst (syncCycle v env w) = Completed w' -> w <= w'.
Proof.
  intros H. destruct (syncCycle_completed v env w w' H) as [->|(T & _ & Hlt & ->)];
    lia.
Qed.

Lemma heightAfter_ge (v : variant) (ticks : list cycle_env) :
  forall w, w <= heightAfter v ticks w.
Proof.
  induction ticks as [|env rest IH]; intros w.
  - rewrite heightAfter_nil. lia.
  - rewrite heightAfter_cons.
    destruct (fst (syncCycle v env w)) as [h|] eqn:Hc; [|lia].
    pose proof (syncCycle_monotone v env w h Hc). specialize (IH h). lia.
Qed.

Lemma heightAfter_app_ge (v : variant) (ticks1 ticks2 : list cycle_env) :
  forall w, heightAfter v ticks1 w <= heightAfter v (ticks1 ++ ticks2) w.
Proof.
  induction ticks1 as [|env rest IH]; intros w.
  - rewrite heightAfter_nil. apply heightAfter_ge.
  - cbn [app]. rewrite !heightAfter_cons.
    destruct (fst (syncCycle v env w)) as [h|]; [apply IH | lia].
Qed.

Lemma pollLoop_not_returned (v : variant) (ticks : list cycle_env) :
  forall w, fst (fst (pollLoop v ticks w)) = Receiving \/
            fst (fst (pollLoop v ticks w)) = Crashed.
Proof.
  induction ticks as [|env rest IH]; intros w; cbn [pollLoop].
  - now left.
  - destruct (syncCycle v env w) as [[h|] tr].
    + specialize (IH h). destruct (pollLoop v rest h) as [[s h'] tr'].
      exact IH.
    + now right.
Qed.

Lemma startup_reaches_initialHeight (rpc dsn : string) (startHeight : Z) (e : launch_env) :
  rpc <> EmptyString -> dsn <> EmptyString ->
  dial e = Ok tt -> sqlOpen e = Ok tt ->
  startup rpc dsn startHeight e = initialHeight startHeight (blockNumberAtLaunch e).
Proof.
  intros Hr Hd He Hs. unfold startup.
  apply String.eqb_neq in Hr, Hd. rewrite Hr, Hd, He, Hs. reflexivity.
Qed.

(** ** Metric calls of the persisting loops *)

(** What an iteration of main.go hands to the gauge and to the pusher. *)
Lemma metricCalls_processHeight_push (gw : string) (env : cycle_env) (h : Z) :
  usableHeader env h = true ->
  metricCalls (snd (processHeight (PersistAndPush gw) env h)) =
  if heightFails env h then []
  else [CallGaugeSet (float64 (difficultyAt env h)); CallPush gw].
Proof.
  unfold usableHeader, heightFails, difficultyAt, processHeight, exportMetric.
  destruct (headerByNumber env h) as [[[d|] [n|]]|e]; try discriminate;
    try reflexivity.
  intros _. destruct (dbExec env h); reflexivity.
Qed.

Lemma metricCalls_processHeight_persistOnly (env : cycle_env) (h : Z) :
  metricCalls (snd (processHeight PersistOnly env h)) = [].
Proof.
  unfold processHeight, exportMetric.
  destruct (headerByNumber env h) as [[[d|] [n|]]|e]; try reflexivity.
  destruct (dbExec env h); reflexivity.
Qed.

Lemma metricCalls_iterations_push (gw : string) (env : cycle_env) (l : list Z) :
  forallb (usableHeader env) l = true ->
  metricCalls (iterations (PersistAndPush gw) env l) =
  flat_map (fun h => if heightFails env h then []
                     else [CallGaugeSet (float64 (difficultyAt env h)); CallPush gw]) l.
Proof.
  induction l as [|h l IH]; [reflexivity|].
  cbn [forallb]. intros [Hh Hl]%andb_prop.
  unfold iterations in *. cbn [flat_map].
  rewrite metricCalls_app, (IH Hl), (metricCalls_processHeight_push gw env h Hh).
  reflexivity.
Qed.

Lemma metricCalls_iterations_persistOnly (env : cycle_env) (l : list Z) :
  metricCalls (iterations PersistOnly env l) = [].
Proof.
  induction l as [|h l IH]; [reflexivity|].
  unfold iterations in *. cbn [flat_map].
  rewrite metricCalls_app, IH, metricCalls_processHeight_persistOnly.
  reflexivity.
Qed.

(** ** The scenarios, run *)

Example steady_scenario :
  syncCycle (PersistAndPush "gw") scenarioSteady 100 =
  (Completed 103,
   [CallBlockNumber;
    CallHeaderByNumber 101; CallDbExec 101 5; Log (LogInserted 101 5);
    CallGaugeSet 5; CallPush "gw"; Log (LogPushed 5);
    CallHeaderByNumber 102; CallDbExec 102 6; Log (LogInserted 102 6);
    CallGaugeSet 6; CallPush "gw"; Log (LogPushed 6);
    CallHeaderByNumber 103; CallDbExec 103 7; Log (LogInserted 103 7);
    CallGaugeSet 7; CallPush "gw"; Log (LogPushed 7)]).
Proof. reflexivity. Qed.

Example fetch_failure_scenario :
  fst (syncCycle PersistOnly scenarioFetchFails 100) = Completed 102 /\
  persisted (snd (syncCycle PersistOnly scenarioFetchFails 100)) = [(102, 9)].
Proof. split; reflexivity. Qed.

Example tip_failure_scenario :
  pollLoop PersistOnly [scenarioTipFails; scenarioFetchFails] 100 =
  (Receiving, 102,
   [CallBlockNumber; Log LogBlockNumberFailed;
    CallBlockNumber;
    CallHeaderByNumber 101; Log (LogHeaderFailed 101);
    CallHeaderByNumber 102; CallDbExec 102 9; Log (LogInserted 102 9)]).
Proof. reflexivity. Qed.

Example quit_scenario :
  TipGauge.main "rpc" "gw" 3 (fun _ => Ok tt)
    [TipGauge.TickerC scenarioSteady; TipGauge.Quit; TipGauge.TickerC scenarioSteady] =
  (Returned,
   [Dial 0; LogConnected],
   [CallBlockNumber; CallHeaderByNumber 103; CallGaugeSet 7; CallPush "gw";
    Log (LogPushed 7); Log LogShutdown]).
Proof. reflexivity. Qed.

(** * The claims *)

(** C1, gap completeness.  When the tip [t] is above the watermark [w], the
    heights a tick hands to [HeaderByNumber] are always an initial segment of
    [w+1, w+2, ..., t]; when every header that arrives is usable the tick
    completes and they are exactly [w+1, w+2, ..., t]: [t - w] fetches, the
    [i]-th of them for the height [w+1+i], so in increasing order, none
    skipped, none twice. *)
Theorem gap_completeness (v : variant) (env : cycle_env) (w T : Z) :
  blockNumber env = Ok T ->
  w < observedTip T ->
  let t := observedTip T in
  let fetched := fetchedHeights (snd (syncCycle v env w)) in
  (exists k : nat, fetched = firstn k (gap w t)) /\
  (headersUsable env w t = true ->
   fst (syncCycle v env w) = Completed t /\
   fetched = gap w t /\
   List.length fetched = Z.to_nat (t - w) /\
   (forall i : nat, (i < Z.to_nat (t - w))%nat ->
                    nth i fetched 0 = w + 1 + Z.of_nat i) /\
   (forall h, In h fetched <-> w < h <= t) /\
   NoDup fetched).
Proof.
  intros Hb Hlt t fetched. split.
  - apply syncCycle_fetches_prefix; assumption.
  - intros Hus. subst fetched.
    rewrite (syncCycle_gap v env w T Hb Hlt Hus). cbn [fst snd].
    change (fetchedHeights (CallBlockNumber :: ?l)) with (fetchedHeights l).
    rewrite fetchedHeights_iterations. fold t.
    split; [reflexivity|]. split; [reflexivity|].
    split; [|split; [|split]].
    + apply gap_length.
    + intros i Hi. apply gap_nth. exact Hi.
    + intros h. apply gap_In.
    + unfold gap. apply Injective_map_NoDup; [|apply seq_NoDup].
      intros i j Hij. lia.
Qed.

Lemma gap_completeness_witness :
  blockNumber scenarioInsertFails = Ok 103 /\
  100 < observedTip 103 /\
  headersUsable scenarioInsertFails 100 (observedTip 103) = true /\
  fetchedHeights (snd (syncCycle (PersistAndPush "gw") scenarioInsertFails 100))
  = [101; 102; 103].
Proof.
  assert (Hb : blockNumber scenarioInsertFails = Ok 103) by reflexivity.
  assert (Hlt : 100 < observedTip 103) by (vm_compute; reflexivity).
  assert (Hus : headersUsable scenarioInsertFails 100 (observedTip 103) = true)
    by (vm_compute; reflexivity).
  split; [exact Hb|]. split; [exact Hlt|]. split; [exact Hus|].
  destruct (gap_completeness (PersistAndPush "gw") scenarioInsertFails 100 103
              Hb Hlt) as [_ H].
  destruct (H Hus) as (_ & Hf & _). exact Hf.
Defined.

(** C2, forward-only watermark.  A tick that completes leaves the watermark
    at or above its old value, and at the observed tip [t] when [t] was above
    it.  The tick does complete, at [t], whichever fetches and inserts fail,
    and in particular when every fetch fails.  Over a run of ticks the
    watermark never goes down. *)
Theorem forward_only_watermark (v : variant) (env : cycle_env) (w : Z) :
  (forall w', fst (syncCycle v env w) = Completed w' ->
     w <= w' /\
     (forall T, blockNumber env = Ok T -> w < observedTip T -> w' = observedTip T)) /\
  (forall T, blockNumber env = Ok T -> w < observedTip T ->
     headersUsable env w (observedTip T) = true ->
     fst (syncCycle v env w) = Completed (observedTip T)) /\
  (forall T, blockNumber env = Ok T -> w < observedTip T ->
     (forall h, w < h <= observedTip T -> exists e, headerByNumber env h = Err e) ->
     fst (syncCycle v env w) = Completed (observedTip T)) /\
  (forall ticks1 ticks2 : list cycle_env,
     w <= heightAfter v ticks1 w /\
     heightAfter v ticks1 w <= heightAfter v (ticks1 ++ ticks2) w).
Proof.
  repeat split.
  - eapply syncCycle_monotone; eassumption.
  - intros T Hb Hlt.
    destruct (syncCycle_completed v env w w' H) as [->|(T' & Hb' & _ & ->)].
    + destruct (syncCycle_fetches_prefix v env w T Hb Hlt) as [k _].
      unfold syncCycle in H. rewrite Hb in H. fold (observedTip T) in H.
      cbv zeta in H.
      replace (observedTip T >? w) with true in H by lia.
      destruct (heightLoop v env (observedTip T) (w + 1)) as [[|] tr];
        cbn in H; [injection H; lia | discriminate].
    + congruence.
  - intros T Hb Hlt Hus. now rewrite (syncCycle_gap v env w T Hb Hlt Hus).
  - intros T Hb Hlt Hall.
    rewrite (syncCycle_gap v env w T Hb Hlt); [reflexivity|].
    apply headersUsable_spec. intros h Hh.
    destruct (Hall h Hh) as [e He]. unfold usableHeader. now rewrite He.
  - apply heightAfter_ge.
  - apply heightAfter_app_ge.
Qed.

Lemma forward_only_watermark_witness :
  fst (syncCycle PersistOnly scenarioAllFetchesFail 100) = Completed 103 /\
  100 <= heightAfter PersistOnly [scenarioAllFetchesFail] 100
      <= heightAfter PersistOnly ([scenarioAllFetchesFail] ++ [scenarioTipFails]) 100.
Proof.
  destruct (forward_only_watermark PersistOnly scenarioAllFetchesFail 100)
    as (_ & _ & Hall & Hrun).
  split.
  - apply (Hall 103); [reflexivity | vm_compute; reflexivity |].
    intros h _. exists "timeout"%string. reflexivity.
  - apply Hrun.
Defined.

(** C3, per-height isolation.  Let [h] be a height of the gap [(w, t]] whose
    fetch or insert fails, the headers that do arrive being usable.  Then the
    loop goes on from [h] with [h+1]; the tick is one iteration per height of
    the gap, each made of the answers for its own height only; the iteration
    of [h] persists nothing and exports nothing; every later height is
    fetched; and the watermark ends at [t]. *)
Theorem per_height_isolation (v : variant) (env : cycle_env) (w T h : Z) :
  blockNumber env = Ok T ->
  w < h <= observedTip T ->
  headersUsable env w (observedTip T) = true ->
  heightFails env h = true ->
  let t := observedTip T in
  heightLoop v env t h =
    (fst (heightLoop v env t (h + 1)),
     snd (processHeight v env h) ++ snd (heightLoop v env t (h + 1))) /\
  snd (syncCycle v env w) = CallBlockNumber :: iterations v env (gap w t) /\
  persisted (snd (processHeight v env h)) = [] /\
  metricCalls (snd (processHeight v env h)) = [] /\
  (forall h', h < h' <= t ->
     In (CallHeaderByNumber h') (snd (syncCycle v env w))) /\
  fetchedHeights (snd (syncCycle v env w)) = gap w h ++ gap h t /\
  fst (syncCycle v env w) = Completed t.
Proof.
  intros Hb Hh Hus Hfail t.
  assert (Hlt : w < observedTip T) by lia.
  pose proof (proj1 (headersUsable_spec env w (observedTip T)) Hus) as Hall.
  rewrite (syncCycle_gap v env w T Hb Hlt Hus). fold t. cbn [fst snd].
  split; [|split; [|split; [|split; [|split; [|split]]]]].
  - apply heightLoop_skips; [lia | apply Hall; lia].
  - reflexivity.
  - apply processHeight_fails. exact Hfail.
  - apply processHeight_fails. exact Hfail.
  - intros h' Hh'. right.
    assert (Hin : In h' (gap w t)) by (apply gap_In; lia).
    unfold iterations. apply in_flat_map. exists h'. split; [exact Hin|].
    unfold processHeight.
    destruct (headerByNumber env h') as [[[d|] [n|]]|e]; cbn;
      try (left; reflexivity).
    destruct (dbExec env h'); cbn; left; reflexivity.
  - change (fetchedHeights (CallBlockNumber :: ?l)) with (fetchedHeights l).
    rewrite fetchedHeights_iterations. apply gap_split. lia.
  - reflexivity.
Qed.

Lemma per_height_isolation_witness :
  heightFails scenarioFetchFails 101 = true /\
  snd (syncCycle (PersistAndPush "gw") scenarioFetchFails 100) =
    [CallBlockNumber;
     CallHeaderByNumber 101; Log (LogHeaderFailed 101);
     CallHeaderByNumber 102; CallDbExec 102 9; Log (LogInserted 102 9);
     CallGaugeSet 9; CallPush "gw"; Log (LogPushed 9)] /\
  fst (syncCycle (PersistAndPush "gw") scenarioFetchFails 100) = Completed 102.
Proof.
  assert (Hh : 100 < 101 <= observedTip 102)
    by (vm_compute; split; [reflexivity | discriminate]).
  assert (Hus : headersUsable scenarioFetchFails 100 (observedTip 102) = true)
    by (vm_compute; reflexivity).
  destruct (per_height_isolation (PersistAndPush "gw") scenarioFetchFails
              100 102 101 eq_refl Hh Hus eq_refl)
    as (_ & Htr & _ & _ & _ & _ & Hw).
  split; [reflexivity|]. split; [exact Htr | exact Hw].
Defined.

(** C4, a failed tip query skips the tick.  The tick consists of the query
    and one log line: no header is fetched, nothing is written, nothing is
    exported, the watermark stays.  The loop goes on with the remaining ticks
    from the same watermark, and each of them starts with the tip query. *)
Theorem tip_failure_skips_tick (v : variant) (env : cycle_env) (w : Z) (e : string) :
  blockNumber env = Err e ->
  syncCycle v env w = (Completed w, [CallBlockNumber; Log LogBlockNumberFailed]) /\
  fetchedHeights (snd (syncCycle v env w)) = [] /\
  ledgerCalls (snd (syncCycle v env w)) = [] /\
  metricCalls (snd (syncCycle v env w)) = [] /\
  (forall rest : list cycle_env,
     fst (pollLoop v (env :: rest) w) = fst (pollLoop v rest w) /\
     snd (pollLoop v (env :: rest) w) =
       [CallBlockNumber; Log LogBlockNumberFailed] ++ snd (pollLoop v rest w)) /\
  (forall next : cycle_env,
     exists tr, snd (syncCycle v next w) = CallBlockNumber :: tr).
Proof.
  intros Hb. pose proof (syncCycle_tip_failed v env w e Hb) as Hc.
  rewrite Hc. cbn [fst snd].
  split; [reflexivity|]. split; [reflexivity|].
  split; [reflexivity|]. split; [reflexivity|]. split.
  - intros rest. cbn [pollLoop]. rewrite Hc.
    destruct (pollLoop v rest w) as [[s h'] tr']. split; reflexivity.
  - intros next. unfold syncCycle.
    destruct (blockNumber next) as [T|e']; [|eexists; reflexivity].
    cbv zeta. destruct (_ >? w); [|eexists; reflexivity].
    destruct (heightLoop _ _ _ _) as [[|] tr]; eexists; reflexivity.
Qed.

Lemma tip_failure_skips_tick_witness :
  blockNumber scenarioTipFails = Err "connection refused" /\
  syncCycle PersistOnly scenarioTipFails 100 =
    (Completed 100, [CallBlockNumber; Log LogBlockNumberFailed]).
Proof.
  split; [reflexivity|].
  exact (proj1 (tip_failure_skips_tick PersistOnly scenarioTipFails 100
                  "connection refused" eq_refl)).
Defined.

(** C5, no-op on a stale tip.  When the observed tip is not above the
    watermark the tick consists of the tip query alone: no header is fetched,
    nothing is written, nothing is exported, and the watermark stays. *)
Theorem stale_tip_is_noop (v : variant) (env : cycle_env) (w T : Z) :
  blockNumber env = Ok T ->
  observedTip T <= w ->
  syncCycle v env w = (Completed w, [CallBlockNumber]) /\
  fetchedHeights (snd (syncCycle v env w)) = [] /\
  ledgerCalls (snd (syncCycle v env w)) = [] /\
  metricCalls (snd (syncCycle v env w)) = [].
Proof.
  intros Hb Hle. rewrite (syncCycle_stale v env w T Hb Hle).
  repeat split.
Qed.

Lemma stale_tip_is_noop_witness :
  blockNumber scenarioSteady = Ok 103 /\
  observedTip 103 <= 103 /\
  syncCycle (PersistAndPush "gw") scenarioSteady 103 =
    (Completed 103, [CallBlockNumber]).
Proof.
  assert (Hle : observedTip 103 <= 103) by (vm_compute; discriminate).
  split; [reflexivity|]. split; [exact Hle|].
  exact (proj1 (stale_tip_is_noop (PersistAndPush "gw") scenarioSteady 103 103
                  eq_refl Hle)).
Defined.

(** C6, headers without a difficulty.  In the persisting loops nothing
    guards the read of the difficulty: when the header of a height [h] of the
    gap comes without one, the headers before it being usable, the tick ends
    in a nil dereference right after the fetch of [h].  Nothing is logged for
    [h], no height after [h] is fetched, the watermark is not set and the
    polling loop is over.  The tip-only program tests for nil, logs, and ends
    the iteration. *)
Theorem nil_difficulty_panics (v : variant) (env : cycle_env) (w T h : Z) (hdr : header) :
  blockNumber env = Ok T ->
  w < h <= observedTip T ->
  headersUsable env w (h - 1) = true ->
  headerByNumber env h = Ok hdr ->
  Difficulty hdr = None ->
  syncCycle v env w =
    (Panicked,
     CallBlockNumber :: iterations v env (gap w (h - 1)) ++ [CallHeaderByNumber h]) /\
  fetchedHeights (snd (syncCycle v env w)) = gap w h /\
  (forall ticks : list cycle_env,
     fst (pollLoop v (env :: ticks) w) = (Crashed, w)) /\
  (forall (gw : string) (env' : cycle_env),
     blockNumber env' = Ok h ->
     headerByNumber env' h = Ok hdr ->
     TipGauge.pollOnce gw env' =
     [CallBlockNumber; CallHeaderByNumber h; Log (LogNilDifficulty h)]).
Proof.
  intros Hb Hh Hus Hhdr Hd.
  pose proof (proj1 (headersUsable_spec env w (h - 1)) Hus) as Hall.
  assert (Hc : syncCycle v env w =
               (Panicked,
                CallBlockNumber :: iterations v env (gap w (h - 1))
                  ++ [CallHeaderByNumber h])).
  { unfold syncCycle. rewrite Hb. fold (observedTip T). cbv zeta.
    replace (observedTip T >? w) with true by lia.
    rewrite (heightLoop_crashes v env (observedTip T) (w + 1) h hdr);
      [ | lia | intros k Hk; apply Hall; lia | exact Hhdr | now left ].
    replace (w + 1 - 1) with w by lia. reflexivity. }
  split; [exact Hc|]. split; [|split].
  - rewrite Hc. cbn [snd].
    change (fetchedHeights (CallBlockNumber :: ?l)) with (fetchedHeights l).
    rewrite fetchedHeights_app, fetchedHeights_iterations.
    rewrite (gap_split w (h - 1) h) by lia.
    rewrite (gap_step (h - 1) h) by lia.
    replace (h - 1 + 1) with h by lia.
    now rewrite (gap_empty h h) by lia.
  - intros ticks. cbn [pollLoop]. rewrite Hc. reflexivity.
  - intros gw env' Hb' Hh'. unfold TipGauge.pollOnce.
    rewrite Hb'. unfold big_SetUint64. cbv zeta. rewrite Hh', Hd. reflexivity.
Qed.

Lemma nil_difficulty_panics_witness :
  headerByNumber scenarioNilDifficulty 101 = Ok (mkHeader None (Some 101)) /\
  syncCycle (PersistAndPush "gw") scenarioNilDifficulty 100 =
    (Panicked, [CallBlockNumber; CallHeaderByNumber 101]) /\
  TipGauge.pollOnce "gw" (mkEnv (Ok 101) (headerByNumber scenarioNilDifficulty)
                                (always tt) (always tt)) =
    [CallBlockNumber; CallHeaderByNumber 101; Log (LogNilDifficulty 101)].
Proof.
  assert (Hh : 100 < 101 <= observedTip 102)
    by (vm_compute; split; [reflexivity | discriminate]).
  assert (Hus : headersUsable scenarioNilDifficulty 100 (101 - 1) = true)
    by (vm_compute; reflexivity).
  destruct (nil_difficulty_panics (PersistAndPush "gw") scenarioNilDifficulty
              100 102 101 (mkHeader None (Some 101)) eq_refl Hh Hus eq_refl eq_refl)
    as (Hc & _ & _ & Htip).
  split; [reflexivity|]. split; [exact Hc|].
  apply Htip; reflexivity.
Defined.

(** C7, shutdown.  The persisting programs have no way out of their polling
    loop: after any ticks whatever [main] has not returned; it has stopped at
    start-up, has panicked making the ticker, is receiving from the ticker,
    or has crashed.  The tip-only
    program returns from [main] as soon as a [select] takes the quit case,
    every tick taken before it having run to its end, and nothing runs
    after. *)
Theorem shutdown_only_in_tip_gauge :
  (forall v rpc dsn interval startHeight e ticks,
     fst (persistMain v rpc dsn interval startHeight e ticks) <> Returned) /\
  (forall v ticks w,
     fst (fst (pollLoop v ticks w)) = Receiving \/
     fst (fst (pollLoop v ticks w)) = Crashed) /\
  (forall gw envs rest,
     TipGauge.mainLoop gw (map TipGauge.TickerC envs ++ TipGauge.Quit :: rest) =
     (Returned, flat_map (TipGauge.pollOnce gw) envs ++ [Log LogShutdown])) /\
  (forall gw envs,
     fst (TipGauge.mainLoop gw (map TipGauge.TickerC envs)) = Receiving).
Proof.
  split; [|split; [|split]].
  - intros v rpc dsn interval startHeight e ticks. unfold persistMain.
    destruct (startup rpc dsn startHeight e) as [|w]; cbn [fst]; [discriminate|].
    destruct (tickerDuration interval <=? 0); cbn [fst]; [discriminate|].
    destruct (pollLoop_not_returned v ticks w) as [-> | ->]; discriminate.
  - apply pollLoop_not_returned.
  - intros gw envs rest. induction envs as [|env envs IH]; [reflexivity|].
    cbn [map app TipGauge.mainLoop flat_map]. rewrite IH. cbn [fst snd].
    now rewrite app_assoc.
  - intros gw envs. induction envs as [|env envs IH]; [reflexivity|].
    cbn [map TipGauge.mainLoop fst]. exact IH.
Qed.

(** C8, metrics export and the gateway flag.  main.go never examines the
    gateway flag: whatever it holds, and so also when it is left empty, every
    accepted insert is followed by a gauge update to the difficulty as a
    [float64] and by a push to that address; a height whose fetch or insert
    failed exports nothing.  The program without metrics code never exports,
    and the tip-only program does examine the flag: with an empty gateway it
    stops at start-up before any dial. *)
Theorem metrics_follow_every_insert (gw : string) (env : cycle_env) (w T : Z) :
  blockNumber env = Ok T ->
  headersUsable env w (observedTip T) = true ->
  metricCalls (snd (syncCycle (PersistAndPush gw) env w)) =
    flat_map (fun h => if heightFails env h then []
                       else [CallGaugeSet (float64 (difficultyAt env h));
                             CallPush gw])
             (gap w (observedTip T)) /\
  metricCalls (snd (syncCycle PersistOnly env w)) = [] /\
  (forall rpc interval dialAt sel,
     TipGauge.main rpc EmptyString interval dialAt sel = (Fatal, [], [])).
Proof.
  intros Hb Hus.
  assert (Hmain : forall rpc interval dialAt sel,
             TipGauge.main rpc EmptyString interval dialAt sel = (Fatal, [], [])).
  { intros rpc interval dialAt sel. unfold TipGauge.main.
    now rewrite orb_true_r. }
  destruct (Z.le_gt_cases (observedTip T) w) as [Hle|Hgt].
  - rewrite !(syncCycle_stale _ env w T Hb Hle), gap_empty by lia.
    split; [reflexivity|]. split; [reflexivity | exact Hmain].
  - rewrite !(syncCycle_gap _ env w T Hb Hgt Hus). cbn [snd].
    change (metricCalls (CallBlockNumber :: ?l)) with (metricCalls l).
    split; [apply metricCalls_iterations_push; exact Hus|].
    split; [apply metricCalls_iterations_persistOnly | exact Hmain].
Qed.

Lemma metrics_follow_every_insert_witness :
  headersUsable scenarioInsertFails 100 (observedTip 103) = true /\
  metricCalls (snd (syncCycle (PersistAndPush EmptyString) scenarioInsertFails 100)) =
    [CallGaugeSet 5; CallPush EmptyString; CallGaugeSet 7; CallPush EmptyString].
Proof.
  assert (Hus : headersUsable scenarioInsertFails 100 (observedTip 103) = true)
    by (vm_compute; reflexivity).
  split; [exact Hus|].
  exact (proj1 (metrics_follow_every_insert EmptyString scenarioInsertFails
                  100 103 eq_refl Hus)).
Defined.

(** C9, watermark initialisation.  A start height that is given and not
    negative becomes the watermark.  With a negative one, and so with the
    flag left at its default, the watermark is the tip the program observes
    at launch, which is the height the node reports when that is below 2^63;
    a tick that then sees the same tip does nothing; and when the query at
    launch fails the program stops with a fatal error. *)
Theorem watermark_initialization (startHeight : Z) (tip : result Z) :
  (0 <= startHeight -> initialHeight startHeight tip = Polling startHeight) /\
  (startHeight < 0 ->
   forall T, tip = Ok T ->
     initialHeight startHeight tip = Polling (observedTip T) /\
     (0 <= T < 2 ^ 63 -> initialHeight startHeight tip = Polling T) /\
     (forall v env, blockNumber env = Ok T ->
        syncCycle v env (observedTip T) =
        (Completed (observedTip T), [CallBlockNumber]))) /\
  (startHeight < 0 ->
   forall e, tip = Err e -> initialHeight startHeight tip = FatalExit) /\
  initialHeight defaultStart tip =
    match tip with
    | Ok T => Polling (observedTip T)
    | Err _ => FatalExit
    end /\
  (forall rpc dsn e,
     rpc <> EmptyString -> dsn <> EmptyString ->
     dial e = Ok tt -> sqlOpen e = Ok tt -> blockNumberAtLaunch e = tip ->
     startup rpc dsn startHeight e = initialHeight startHeight tip).
Proof.
  unfold initialHeight.
  split; [|split; [|split; [|split]]].
  - intros H. replace (startHeight >=? 0) with true by lia. reflexivity.
  - intros H T ->. replace (startHeight >=? 0) with false by lia.
    split; [reflexivity|]. split.
    + intros HT. unfold big_NewInt. now rewrite int64_small.
    + intros v env Hb. apply (syncCycle_stale v env _ T Hb). lia.
  - intros H e ->. replace (startHeight >=? 0) with false by lia. reflexivity.
  - destruct tip; reflexivity.
  - intros rpc dsn e Hr Hd He Hs <-.
    now apply startup_reaches_initialHeight.
Qed.

Lemma watermark_initialization_witness :
  initialHeight 100 (Ok 345) = Polling 100 /\
  initialHeight (-1) (Ok 345) = Polling 345 /\
  initialHeight (-1) (Err "connection refused") = FatalExit.
Proof.
  split; [|split].
  - apply (proj1 (watermark_initialization 100 (Ok 345))). lia.
  - destruct (watermark_initialization (-1) (Ok 345)) as (_ & H & _).
    destruct (H ltac:(lia) 345 eq_refl) as (_ & H345 & _).
    apply H345. lia.
  - destruct (watermark_initialization (-1) (Err "connection refused"))
      as (_ & _ & H & _).
    apply (H ltac:(lia) "connection refused"%string eq_refl).
Defined.



(** * Further properties of the programs *)

(** ** [connectRPC] *)

Lemma connectLoop_ok (dialAt : nat -> result unit) (r : nat) :
  forall i,
    TipGauge.connectLoop dialAt r i = Ok tt <->
    exists j, (i <= j < i + r)%nat /\ dialAt j = Ok tt.
Proof.
  induction r as [|r IH]; intros i; cbn [TipGauge.connectLoop].
  - split; [discriminate | intros (j & Hj & _); lia].
  - destruct (dialAt i) as [[]|e] eqn:Hd.
    + split; [|reflexivity]. intros _. exists i. split; [lia | exact Hd].
    + rewrite IH. split; intros (j & Hj & Hok).
      * exists j. split; [lia | exact Hok].
      * exists j. split; [|exact Hok].
        assert (j <> i) by (intros ->; congruence). lia.
Qed.

Lemma connectLoop_result (dialAt : nat -> result unit) (r : nat) :
  forall i,
    TipGauge.connectLoop dialAt r i = Ok tt \/
    TipGauge.connectLoop dialAt r i =
      Err "cannot connect to RPC after several attempts".
Proof.
  induction r as [|r IH]; intros i; cbn [TipGauge.connectLoop].
  - now right.
  - destruct (dialAt i) as [[]|e]; [now left | apply IH].
Qed.

Lemma connectLoop_ext (dialAt dialAt' : nat -> result unit) (r : nat) :
  forall i,
    (forall j, (i <= j < i + r)%nat -> dialAt j = dialAt' j) ->
    TipGauge.connectLoop dialAt r i = TipGauge.connectLoop dialAt' r i.
Proof.
  induction r as [|r IH]; intros i Hext; [reflexivity|].
  cbn [TipGauge.connectLoop]. rewrite <- (Hext i) by lia.
  destruct (dialAt i); [reflexivity|].
  apply IH. intros j Hj. apply Hext. lia.
Qed.

(** X1.  [connectRPC] connects exactly when one of the first five dials
    does; otherwise it returns its error.  Dials from the sixth on are never
    made: two worlds that agree on the first five give the same result. *)
Theorem connectRPC_succeeds_iff (dialAt : nat -> result unit) :
  (TipGauge.connectRPC dialAt = Ok tt <->
   exists i, (i < 5)%nat /\ dialAt i = Ok tt) /\
  (TipGauge.connectRPC dialAt <> Ok tt ->
   TipGauge.connectRPC dialAt =
     Err "cannot connect to RPC after several attempts") /\
  (forall dialAt' : nat -> result unit,
     (forall i, (i < 5)%nat -> dialAt i = dialAt' i) ->
     TipGauge.connectRPC dialAt = TipGauge.connectRPC dialAt').
Proof.
  unfold TipGauge.connectRPC. split; [|split].
  - rewrite connectLoop_ok. split; intros (j & Hj & Hok); exists j;
      (split; [lia | exact Hok]).
  - intros Hn. destruct (connectLoop_result dialAt 5 0) as [H|H];
      [contradiction | exact H].
  - intros dialAt' Hext. apply connectLoop_ext. intros j Hj. apply Hext. lia.
Qed.

Lemma connectRPC_succeeds_iff_witness :
  TipGauge.connectRPC dialThird = Ok tt /\
  TipGauge.connectRPC dialNever =
    Err "cannot connect to RPC after several attempts".
Proof.
  split.
  - apply (proj1 (connectRPC_succeeds_iff dialThird)).
    exists 2%nat. split; [lia | reflexivity].
  - apply (proj1 (proj2 (connectRPC_succeeds_iff dialNever))).
    intros H. apply (proj1 (connectRPC_succeeds_iff dialNever)) in H.
    destruct H as (i & _ & H). discriminate H.
Defined.

Lemma connectRun_result (dialAt : nat -> result unit) (r : nat) :
  forall i, fst (connectRun dialAt r i) = TipGauge.connectLoop dialAt r i.
Proof.
  induction r as [|r IH]; intros i; cbn [connectRun TipGauge.connectLoop].
  - reflexivity.
  - destruct (dialAt i); [reflexivity | apply IH].
Qed.

Lemma connectRun_events (dialAt : nat -> result unit) (k : nat) :
  forall r i,
    (k <= r)%nat ->
    (forall j, (i <= j < i + k)%nat -> exists e, dialAt j = Err e) ->
    ((k < r)%nat -> dialAt (i + k)%nat = Ok tt) ->
    dialsOf (snd (connectRun dialAt r i)) = seq i (Nat.min (S k) r) /\
    sleepSeconds (snd (connectRun dialAt r i)) = 5 * Z.of_nat k.
Proof.
  induction k as [|k IH]; intros r i Hk Hfail Hok.
  - destruct r as [|r]; [split; reflexivity|].
    cbn [connectRun]. rewrite Nat.add_0_r in Hok.
    rewrite Hok by lia. split; reflexivity.
  - destruct r as [|r]; [lia|].
    cbn [connectRun]. destruct (Hfail i ltac:(lia)) as [e ->]. cbn [snd].
    destruct (IH r (S i)) as [Hd Hs].
    + lia.
    + intros j Hj. apply Hfail. lia.
    + intros Hlt. replace (S i + k)%nat with (i + S k)%nat by lia.
      apply Hok. lia.
    + split.
      * change (dialsOf ([Dial i; LogDialFailed (S i); Sleep 5] ++ ?t))
          with (i :: dialsOf t).
        rewrite Hd. reflexivity.
      * change (sleepSeconds ([Dial i; LogDialFailed (S i); Sleep 5] ++ ?t))
          with (5 + sleepSeconds t).
        rewrite Hs. lia.
Qed.

(** X2.  When the first [k] dials fail and the next one, if there is one
    among the five, connects, [connectRPC] dials the attempts [0, 1, ...] up
    to that one and no further, and sleeps five seconds after each failure:
    [5 * k] seconds in all, so 25 seconds before it gives up. *)
Theorem connectRPC_dials_and_sleeps (dialAt : nat -> result unit) (k : nat) :
  (k <= 5)%nat ->
  (forall j, (j < k)%nat -> exists e, dialAt j = Err e) ->
  ((k < 5)%nat -> dialAt k = Ok tt) ->
  fst (connectRun dialAt 5 0) = TipGauge.connectRPC dialAt /\
  dialsOf (snd (connectRun dialAt 5 0)) = seq 0 (Nat.min (S k) 5) /\
  sleepSeconds (snd (connectRun dialAt 5 0)) = 5 * Z.of_nat k.
Proof.
  intros Hk Hfail Hok. split; [apply connectRun_result|].
  apply connectRun_events.
  - exact Hk.
  - intros j Hj. apply Hfail. lia.
  - exact Hok.
Qed.

Lemma connectRPC_dials_and_sleeps_witness :
  dialsOf (snd (connectRun dialNever 5 0)) = [0; 1; 2; 3; 4]%nat /\
  sleepSeconds (snd (connectRun dialNever 5 0)) = 25 /\
  dialsOf (snd (connectRun dialThird 5 0)) = [0; 1; 2]%nat /\
  sleepSeconds (snd (connectRun dialThird 5 0)) = 10.
Proof.
  destruct (connectRPC_dials_and_sleeps dialNever 5) as (_ & Hd & Hs).
  - lia.
  - intros j _. exists "connection refused"%string. reflexivity.
  - lia.
  - destruct (connectRPC_dials_and_sleeps dialThird 2) as (_ & Hd' & Hs').
    + lia.
    + intros j Hj. exists "connection refused"%string.
      unfold dialThird. replace (j <? 2)%nat with true; [reflexivity|].
      symmetry. apply Nat.ltb_lt. exact Hj.
    + reflexivity.
    + split; [exact Hd|]. split; [exact Hs|]. split; [exact Hd' | exact Hs'].
Defined.

(** ** Start-up *)

Lemma mainLoop_status (gw : string) (sel : list TipGauge.selected) :
  fst (TipGauge.mainLoop gw sel) = Receiving \/
  fst (TipGauge.mainLoop gw sel) = Returned.
Proof.
  induction sel as [|[env|] sel IH]; cbn [TipGauge.mainLoop fst].
  - now left.
  - exact IH.
  - now right.
Qed.

Lemma connectRPC_fails_iff (dialAt : nat -> result unit) :
  (exists e, TipGauge.connectRPC dialAt = Err e) <->
  (forall i, (i < 5)%nat -> exists e, dialAt i = Err e).
Proof.
  unfold TipGauge.connectRPC. split.
  - intros [e He] i Hi. destruct (dialAt i) as [[]|e'] eqn:Hd; [|now exists e'].
    assert (Hok : TipGauge.connectLoop dialAt 5 0 = Ok tt).
    { apply connectLoop_ok. exists i. split; [lia | exact Hd]. }
    congruence.
  - intros Hall. destruct (connectLoop_result dialAt 5 0) as [H|H];
      [|eexists; exact H].
    apply connectLoop_ok in H. destruct H as (j & Hj & Hok).
    destruct (Hall j ltac:(lia)) as [e He]. congruence.
Qed.

Lemma tickerDuration_small (interval : Z) :
  - 9223372036 <= interval <= 9223372036 ->
  tickerDuration interval = interval * 1000000000.
Proof.
  intros H. unfold tickerDuration, int64.
  rewrite Z.mod_small by lia. lia.
Qed.

(** X3.  The tip-only program stops with a fatal error exactly when the RPC
    flag or the gateway flag is empty or all five dials fail.  With an empty
    flag it stops before any dial; when the dials all fail it has dialled
    five times and slept 25 seconds by then, and has made no call on the
    node, the gauge or the pusher.  With both flags set and a dial that
    connects, it panics making the ticker when the interval is not a positive
    duration, which is the case for every interval from -9223372036 to 0,
    before any tick is taken; otherwise it is its main loop that runs, with
    the gateway flag as given. *)
Theorem tip_gauge_startup (rpc gw : string) (interval : Z)
    (dialAt : nat -> result unit) (sel : list TipGauge.selected) :
  let r := TipGauge.main rpc gw interval dialAt sel in
  (fst (fst r) = Fatal <->
   rpc = EmptyString \/ gw = EmptyString \/
   (forall i, (i < 5)%nat -> exists e, dialAt i = Err e)) /\
  (rpc = EmptyString \/ gw = EmptyString -> r = (Fatal, [], [])) /\
  (rpc <> EmptyString -> gw <> EmptyString ->
   snd (fst r) = snd (connectRun dialAt 5 0) /\
   ((forall i, (i < 5)%nat -> exists e, dialAt i = Err e) ->
    dialsOf (snd (fst r)) = [0; 1; 2; 3; 4]%nat /\
    sleepSeconds (snd (fst r)) = 25 /\
    snd r = []) /\
   (TipGauge.connectRPC dialAt = Ok tt ->
    (tickerDuration interval <= 0 -> fst (fst r) = Crashed /\ snd r = []) /\
    (- 9223372036 <= interval <= 0 -> fst (fst r) = Crashed /\ snd r = []) /\
    (0 < tickerDuration interval ->
     fst (fst r) = fst (TipGauge.mainLoop gw sel) /\
     snd r = snd (TipGauge.mainLoop gw sel)))).
Proof.
  cbv zeta. unfold TipGauge.main.
  destruct (String.eqb_spec rpc EmptyString) as [Hr|Hr]; cbn [orb].
  { cbn [fst snd]. split; [tauto|]. split; [reflexivity|]. tauto. }
  destruct (String.eqb_spec gw EmptyString) as [Hg|Hg].
  { cbn [fst snd]. split; [tauto|]. split; [reflexivity|]. tauto. }
  pose proof (connectRPC_fails_iff dialAt) as Hc.
  pose proof (mainLoop_status gw sel) as Hst.
  pose proof (connectRun_result dialAt 5 0) as Hres.
  fold (TipGauge.connectRPC dialAt) in Hres. rewrite Hres.
  destruct (TipGauge.connectRPC dialAt) as [[]|e] eqn:Hconn.
  - assert (Hnot : ~ (forall i, (i < 5)%nat -> exists e, dialAt i = Err e)).
    { intros Hall. apply Hc in Hall. destruct Hall as [e He]. discriminate He. }
    split; [|split].
    + split; [|tauto].
      destruct (tickerDuration interval <=? 0); cbn [fst];
        [discriminate | destruct Hst as [-> | ->]; discriminate].
    + tauto.
    + intros _ _. split; [|split].
      * destruct (tickerDuration interval <=? 0); reflexivity.
      * intros Hall. contradiction.
      * intros _. split; [|split].
        -- intros Hd. replace (tickerDuration interval <=? 0) with true by lia.
           split; reflexivity.
        -- intros Hi. rewrite tickerDuration_small by lia.
           replace (interval * 1000000000 <=? 0) with true by lia.
           split; reflexivity.
        -- intros Hd. replace (tickerDuration interval <=? 0) with false by lia.
           split; reflexivity.
  - assert (Hall : forall i, (i < 5)%nat -> exists e, dialAt i = Err e)
      by (apply Hc; now exists e).
    cbn [fst snd]. split; [|split].
    + split; [intros _; right; right; exact Hall | reflexivity].
    + tauto.
    + intros _ _. split; [reflexivity|]. split; [|discriminate].
      intros _.
      destruct (connectRun_events dialAt 5 5 0) as [Hd Hs].
      * lia.
      * intros j Hj. apply Hall. lia.
      * lia.
      * split; [exact Hd|]. split; [exact Hs | reflexivity].
Qed.

Lemma tip_gauge_startup_witness :
  TipGauge.main "rpc" "gw" 3 dialNever [TipGauge.TickerC scenarioSteady] =
    (Fatal, snd (connectRun dialNever 5 0), []) /\
  dialsOf (snd (connectRun dialNever 5 0)) = [0; 1; 2; 3; 4]%nat /\
  fst (fst (TipGauge.main "rpc" "gw" 0 dialThird [TipGauge.TickerC scenarioSteady]))
    = Crashed /\
  snd (TipGauge.main "rpc" "gw" 3 dialThird [TipGauge.TickerC scenarioSteady]) =
    snd (TipGauge.mainLoop "gw" [TipGauge.TickerC scenarioSteady]).
Proof.
  assert (Hr : "rpc"%string <> EmptyString) by discriminate.
  assert (Hg : "gw"%string <> EmptyString) by discriminate.
  assert (Hnever : forall i, (i < 5)%nat -> exists e, dialNever i = Err e)
    by (intros i _; exists "connection refused"%string; reflexivity).
  destruct (tip_gauge_startup "rpc" "gw" 3 dialNever
              [TipGauge.TickerC scenarioSteady]) as (_ & _ & Hn).
  destruct (Hn Hr Hg) as (_ & Hfail & _).
  destruct (Hfail Hnever) as (Hd & _ & _).
  destruct (tip_gauge_startup "rpc" "gw" 0 dialThird
              [TipGauge.TickerC scenarioSteady]) as (_ & _ & H0).
  destruct (H0 Hr Hg) as (_ & _ & Hok0).
  destruct (Hok0 eq_refl) as (_ & Hpanic & _).
  destruct (tip_gauge_startup "rpc" "gw" 3 dialThird
              [TipGauge.TickerC scenarioSteady]) as (_ & _ & H3).
  destruct (H3 Hr Hg) as (_ & _ & Hok3).
  destruct (Hok3 eq_refl) as (_ & _ & Hrun).
  split; [reflexivity|]. split; [exact Hd|]. split.
  - apply Hpanic. lia.
  - apply Hrun. vm_compute. reflexivity.
Defined.

(** X4.  The persisting programs stop at start-up exactly when the RPC flag
    or the DSN flag is empty, the dial fails, the store cannot be opened, or
    the start height is negative and the tip query at launch fails.  With a
    start height that is not negative the answer to the tip query plays no
    part. *)
Theorem persist_startup_fatal_iff (rpc dsn : string) (startHeight : Z) (e : launch_env) :
  (startup rpc dsn startHeight e = FatalExit <->
   rpc = EmptyString \/ dsn = EmptyString \/
   (exists err, dial e = Err err) \/
   (exists err, sqlOpen e = Err err) \/
   (startHeight < 0 /\ exists err, blockNumberAtLaunch e = Err err)) /\
  (0 <= startHeight ->
   forall tip' : result Z,
     startup rpc dsn startHeight (mkLaunch (dial e) (sqlOpen e) tip') =
     startup rpc dsn startHeight e).
Proof.
  unfold startup, initialHeight. split.
  - destruct (String.eqb_spec rpc EmptyString) as [Hr|Hr]; cbn [orb];
      [tauto|].
    destruct (String.eqb_spec dsn EmptyString) as [Hd|Hd]; [tauto|].
    destruct (dial e) as [[]|e1].
    2:{ split; [|reflexivity]. intros _. right. right. left. now exists e1. }
    destruct (sqlOpen e) as [[]|e2].
    2:{ split; [|reflexivity]. intros _. do 3 right. left. now exists e2. }
    destruct (startHeight >=? 0) eqn:Hs.
    + split; [discriminate|].
      intros [H|[H|[[x H]|[[x H]|[H _]]]]]; try contradiction;
        try discriminate; lia.
    + destruct (blockNumberAtLaunch e) as [T|e3].
      * split; [discriminate|].
        intros [H|[H|[[x H]|[[x H]|[_ [x H]]]]]]; try contradiction;
          discriminate.
      * split; [|reflexivity]. intros _. do 4 right.
        split; [lia | now exists e3].
  - intros Hs tip'. cbn [dial sqlOpen blockNumberAtLaunch].
    replace (startHeight >=? 0) with true by lia. reflexivity.
Qed.

Lemma persist_startup_fatal_iff_witness :
  startup "rpc" "dsn" (-1) launchNoTip = FatalExit /\
  startup "rpc" "dsn" 7 launchNoTip = startup "rpc" "dsn" 7 launchFine.
Proof.
  split.
  - apply (proj1 (persist_startup_fatal_iff "rpc" "dsn" (-1) launchNoTip)).
    do 4 right. split; [lia | exists "timeout"%string; reflexivity].
  - symmetry.
    apply (proj2 (persist_startup_fatal_iff "rpc" "dsn" 7 launchNoTip)
             ltac:(lia) (Ok 345)).
Defined.

(** ** The tip-only program *)

Lemma mainLoop_until_quit (gw : string) (envs : list cycle_env)
    (rest : list TipGauge.selected) :
  snd (TipGauge.mainLoop gw (map TipGauge.TickerC envs ++ TipGauge.Quit :: rest)) =
  flat_map (TipGauge.pollOnce gw) envs ++ [Log LogShutdown].
Proof.
  induction envs as [|env envs IH]; [reflexivity|].
  cbn [map app TipGauge.mainLoop flat_map snd]. rewrite IH.
  now rewrite app_assoc.
Qed.

Section TipTick.

Variable gw : string.
Variable env : cycle_env.

Lemma pollOnce_fetches : fetchedHeights (TipGauge.pollOnce gw env) = tipOf env.
Proof.
  unfold TipGauge.pollOnce, tipOf.
  destruct (blockNumber env) as [T|e]; [|reflexivity].
  cbv zeta. destruct (headerByNumber env _) as [[[d|] n]|e]; reflexivity.
Qed.

Lemma pollOnce_gauge : gaugeValues (TipGauge.pollOnce gw env) = tipDifficulty env.
Proof.
  unfold TipGauge.pollOnce, tipDifficulty.
  destruct (blockNumber env) as [T|e]; [|reflexivity].
  cbv zeta. destruct (headerByNumber env _) as [[[d|] n]|e]; reflexivity.
Qed.

Lemma pollOnce_pushes :
  pushTargets (TipGauge.pollOnce gw env) = map (fun _ => gw) (tipDifficulty env).
Proof.
  unfold TipGauge.pollOnce, tipDifficulty.
  destruct (blockNumber env) as [T|e]; [|reflexivity].
  cbv zeta. destruct (headerByNumber env _) as [[[d|] n]|e]; reflexivity.
Qed.

Lemma pollOnce_no_ledger : ledgerCalls (TipGauge.pollOnce gw env) = [].
Proof.
  unfold TipGauge.pollOnce.
  destruct (blockNumber env) as [T|e]; [|reflexivity].
  cbv zeta. destruct (headerByNumber env _) as [[[d|] n]|e]; reflexivity.
Qed.

Lemma pollOnce_one_query : tipQueries (TipGauge.pollOnce gw env) = 1%nat.
Proof.
  unfold TipGauge.pollOnce.
  destruct (blockNumber env) as [T|e]; [|reflexivity].
  cbv zeta. destruct (headerByNumber env _) as [[[d|] n]|e]; reflexivity.
Qed.

End TipTick.

Lemma ledgerCalls_app (a b : list event) :
  ledgerCalls (a ++ b) = ledgerCalls a ++ ledgerCalls b.
Proof. apply flat_map_app. Qed.

Lemma gaugeValues_app (a b : list event) :
  gaugeValues (a ++ b) = gaugeValues a ++ gaugeValues b.
Proof. apply flat_map_app. Qed.

Lemma pushTargets_app (a b : list event) :
  pushTargets (a ++ b) = pushTargets a ++ pushTargets b.
Proof. apply flat_map_app. Qed.

Lemma tipQueries_app (a b : list event) :
  tipQueries (a ++ b) = (tipQueries a + tipQueries b)%nat.
Proof. unfold tipQueries. now rewrite filter_app, length_app. Qed.

Lemma calls_app (a b : list event) : calls (a ++ b) = calls a ++ calls b.
Proof. apply filter_app. Qed.

Lemma tip_ticks_events (gw : string) (envs : list cycle_env) :
  let tr := flat_map (TipGauge.pollOnce gw) envs in
  tipQueries tr = List.length envs /\
  fetchedHeights tr = flat_map tipOf envs /\
  gaugeValues tr = flat_map tipDifficulty envs /\
  pushTargets tr = map (fun _ => gw) (flat_map tipDifficulty envs) /\
  ledgerCalls tr = [].
Proof.
  cbv zeta. induction envs as [|env envs (IHq & IHf & IHg & IHp & IHl)].
  - repeat split.
  - cbn [flat_map List.length].
    rewrite tipQueries_app, fetchedHeights_app, gaugeValues_app,
      pushTargets_app, ledgerCalls_app, map_app.
    rewrite IHq, IHf, IHg, IHp, IHl.
    rewrite pollOnce_one_query, pollOnce_fetches, pollOnce_gauge,
      pollOnce_pushes, pollOnce_no_ledger.
    repeat split.
Qed.

(** X5.  A run of the tip-only program up to its quit makes one tip query
    per tick taken; it fetches one header for each answered query, at the
    reported height itself and again when the tip has not moved; it sets the
    gauge once for each header that came with a difficulty, and pushes to the
    configured gateway as often; it never touches the store.  A header
    without a number does no harm, and nothing after the quit is run. *)
Theorem tip_gauge_run (gw : string) (envs : list cycle_env)
    (rest : list TipGauge.selected) :
  let tr := snd (TipGauge.mainLoop gw
                   (map TipGauge.TickerC envs ++ TipGauge.Quit :: rest)) in
  tipQueries tr = List.length envs /\
  fetchedHeights tr = flat_map tipOf envs /\
  gaugeValues tr = flat_map tipDifficulty envs /\
  pushTargets tr = map (fun _ => gw) (flat_map tipDifficulty envs) /\
  ledgerCalls tr = [].
Proof.
  cbv zeta. rewrite mainLoop_until_quit.
  destruct (tip_ticks_events gw envs) as (Hq & Hf & Hg & Hp & Hl).
  rewrite tipQueries_app, fetchedHeights_app, gaugeValues_app,
    pushTargets_app, ledgerCalls_app.
  rewrite Hq, Hf, Hg, Hp, Hl. cbn.
  rewrite !app_nil_r, Nat.add_0_r. repeat split.
Qed.

(** ** Runs of the persisting programs *)

Lemma pollLoop_cons (v : variant) (env : cycle_env) (rest : list cycle_env) (w : Z) :
  pollLoop v (env :: rest) w =
  match fst (syncCycle v env w) with
  | Completed h =>
      (fst (fst (pollLoop v rest h)), heightAfter v rest h,
       snd (syncCycle v env w) ++ snd (pollLoop v rest h))
  | Panicked => (Crashed, w, snd (syncCycle v env w))
  end.
Proof.
  cbn [pollLoop]. unfold heightAfter.
  destruct (syncCycle v env w) as [[h|] tr]; cbn [fst snd]; [|reflexivity].
  destruct (pollLoop v rest h) as [[s h'] tr']. reflexivity.
Qed.

(** What holds of the empty trace, of the tip query, of its failure log, of
    every iteration, and of concatenations, holds of every run. *)
Section TraceInvariant.

Variable v : variant.
Variable P : list event -> Prop.
Hypothesis P_nil : P [].
Hypothesis P_app : forall a b, P a -> P b -> P (a ++ b).
Hypothesis P_query : P [CallBlockNumber].
Hypothesis P_log : P [Log LogBlockNumberFailed].
Hypothesis P_iteration : forall env h, P (snd (processHeight v env h)).

Lemma heightLoop_trace (env : cycle_env) (currentHeight h : Z) :
  P (snd (heightLoop v env currentHeight h)).
Proof.
  remember (Z.to_nat (currentHeight + 1 - h)) as n eqn:Hn.
  revert h Hn. induction n as [|n IH]; intros h Hn; rewrite heightLoop_eq.
  - replace (h <=? currentHeight) with false by lia. exact P_nil.
  - replace (h <=? currentHeight) with true by lia.
    pose proof (P_iteration env h) as Hp.
    destruct (processHeight v env h) as [[|] tr]; cbn [snd] in *.
    + apply P_app; [exact Hp | apply IH; lia].
    + exact Hp.
Qed.

Lemma syncCycle_trace (env : cycle_env) (w : Z) : P (snd (syncCycle v env w)).
Proof.
  unfold syncCycle. destruct (blockNumber env) as [T|e].
  - cbv zeta. destruct (_ >? w); [|exact P_query].
    pose proof (heightLoop_trace env (big_NewInt (int64 T)) (w + 1)) as Hl.
    destruct (heightLoop v env _ _) as [[|] tr]; cbn [snd] in *;
      apply (P_app [CallBlockNumber] tr P_query Hl).
  - apply (P_app [CallBlockNumber] [Log LogBlockNumberFailed] P_query P_log).
Qed.

Lemma pollLoop_trace (ticks : list cycle_env) :
  forall w, P (snd (pollLoop v ticks w)).
Proof.
  induction ticks as [|env rest IH]; intros w; [exact P_nil|].
  rewrite pollLoop_cons. pose proof (syncCycle_trace env w) as Hc.
  destruct (fst (syncCycle v env w)) as [h|]; cbn [snd].
  - apply P_app; [exact Hc | apply IH].
  - exact Hc.
Qed.

End TraceInvariant.

Lemma float64_exact (x : Z) : x < 2 ^ 53 -> float64 x = x.
Proof.
  intros Hx. unfold float64. replace (x <? 2 ^ 53) with true by lia.
  reflexivity.
Qed.

Lemma float64_error (x : Z) :
  2 ^ 53 <= x < 2 ^ 64 -> Z.abs (float64 x - x) <= 1024.
Proof.
  intros Hx. unfold float64. replace (x <? 2 ^ 53) with false by lia.
  cbv zeta.
  assert (He : 1 <= Z.log2 x - 52 <= 11).
  { split.
    - pose proof (Z.log2_le_mono (2 ^ 53) x ltac:(lia)) as Hl.
      rewrite Z.log2_pow2 in Hl by lia. lia.
    - assert (Z.log2 x < 64) by (apply Z.log2_lt_pow2; lia). lia. }
  set (e := Z.log2 x - 52) in *.
  assert (Hp : 2 ^ e = 2 * 2 ^ (e - 1)).
  { replace e with (Z.succ (e - 1)) at 1 by lia.
    rewrite Z.pow_succ_r by lia. reflexivity. }
  assert (Hh : 0 < 2 ^ (e - 1) <= 1024).
  { split; [apply Z.pow_pos_nonneg; lia|].
    change 1024 with (2 ^ 10). apply Z.pow_le_mono_r; lia. }
  pose proof (Z.div_mod x (2 ^ e) ltac:(lia)) as Hdm.
  pose proof (Z.mod_pos_bound x (2 ^ e) ltac:(lia)) as Hr.
  set (P := 2 ^ e) in *. set (h := 2 ^ (e - 1)) in *.
  set (q := x / P) in *. set (r := x mod P) in *.
  destruct (r <? h) eqn:H1; destruct (h <? r) eqn:H2; destruct (Z.even q);
    lia.
Qed.

(** X6.  In main.go, over a whole run, crashed or not, the values handed to
    the gauge are the difficulties of the rows the store accepted, each
    converted to [float64], in the same order, and there is one push for each
    of them, always to the gateway given on the command line.  The gauge
    shows the stored difficulty itself when that is below 2^53 and is off by
    at most 1024 otherwise: for the difficulty 2^53 + 1 it is set to 2^53.
    The program without metrics code never sets a gauge or pushes. *)
Theorem export_follows_inserts (gw : string) (ticks : list cycle_env) (w : Z) :
  let tr := snd (pollLoop (PersistAndPush gw) ticks w) in
  gaugeValues tr = map (fun row => float64 (snd row)) (persisted tr) /\
  pushTargets tr = map (fun _ => gw) (persisted tr) /\
  (Forall (fun row => snd row < 2 ^ 53) (persisted tr) ->
   gaugeValues tr = map snd (persisted tr)) /\
  Forall2 (fun g row => Z.abs (g - snd row) <= 1024) (gaugeValues tr) (persisted tr) /\
  float64 (2 ^ 53 + 1) = 2 ^ 53 /\
  metricCalls (snd (pollLoop PersistOnly ticks w)) = [].
Proof.
  cbv zeta.
  assert (Hg : gaugeValues (snd (pollLoop (PersistAndPush gw) ticks w)) =
               map (fun row => float64 (snd row))
                   (persisted (snd (pollLoop (PersistAndPush gw) ticks w)))).
  { apply (pollLoop_trace (PersistAndPush gw)
             (fun tr => gaugeValues tr =
                        map (fun row => float64 (snd row)) (persisted tr)));
      try reflexivity.
    - intros a b Ha Hb.
      now rewrite gaugeValues_app, persisted_app, map_app, Ha, Hb.
    - intros env h. unfold processHeight, exportMetric.
      destruct (headerByNumber env h) as [[[d|] [n|]]|e]; try reflexivity.
      destruct (dbExec env h); destruct (pushNow env h); reflexivity. }
  assert (Hrows : Forall (fun row => is_uint64 (snd row))
                    (persisted (snd (pollLoop (PersistAndPush gw) ticks w)))).
  { apply (pollLoop_trace (PersistAndPush gw)
             (fun tr => Forall (fun row => is_uint64 (snd row)) (persisted tr)));
      try (cbn; constructor).
    - intros a b Ha Hb. rewrite persisted_app. apply Forall_app. now split.
    - intros env h. unfold processHeight, exportMetric.
      destruct (headerByNumber env h) as [[[d|] [n|]]|e]; try (cbn; constructor).
      destruct (dbExec env h); destruct (pushNow env h); cbn;
        repeat constructor; unfold is_uint64, big_Uint64;
        apply Z.mod_pos_bound; lia. }
  split; [exact Hg|]. split; [|split; [|split; [|split]]].
  - apply (pollLoop_trace (PersistAndPush gw)
             (fun tr => pushTargets tr = map (fun _ => gw) (persisted tr)));
      try reflexivity.
    + intros a b Ha Hb.
      now rewrite pushTargets_app, persisted_app, map_app, Ha, Hb.
    + intros env h. unfold processHeight, exportMetric.
      destruct (headerByNumber env h) as [[[d|] [n|]]|e]; try reflexivity.
      destruct (dbExec env h); destruct (pushNow env h); reflexivity.
  - intros Hsmall. rewrite Hg. apply map_ext_in. intros row Hin.
    rewrite Forall_forall in Hsmall. apply float64_exact, Hsmall, Hin.
  - rewrite Hg. clear Hg.
    induction Hrows as [|row rows Hrow _ IH]; cbn [map]; constructor;
      [|exact IH].
    cbn [snd]. destruct (Z.lt_ge_cases (snd row) (2 ^ 53)) as [Hlt|Hge].
    + rewrite float64_exact by exact Hlt. lia.
    + apply float64_error. unfold is_uint64 in Hrow. lia.
  - vm_compute. reflexivity.
  - apply (pollLoop_trace PersistOnly (fun tr => metricCalls tr = []));
      try reflexivity.
    + intros a b Ha Hb. now rewrite metricCalls_app, Ha, Hb.
    + intros env h. apply metricCalls_processHeight_persistOnly.
Qed.

Lemma export_follows_inserts_witness :
  persisted (snd (pollLoop (PersistAndPush "gw") [scenarioHugeDifficulty] 100)) =
    [(101, 2 ^ 53 + 1)] /\
  gaugeValues (snd (pollLoop (PersistAndPush "gw") [scenarioHugeDifficulty] 100)) =
    [2 ^ 53] /\
  gaugeValues (snd (pollLoop (PersistAndPush "gw") [scenarioSteady] 100)) =
    [5; 6; 7].
Proof.
  split; [reflexivity|]. split.
  - rewrite (proj1 (export_follows_inserts "gw" [scenarioHugeDifficulty] 100)).
    reflexivity.
  - destruct (export_follows_inserts "gw" [scenarioSteady] 100)
      as (_ & _ & Hsmall & _).
    rewrite Hsmall; [reflexivity|].
    repeat constructor.
Defined.

Lemma big_Uint64_range (x : Z) : is_uint64 (big_Uint64 x).
Proof.
  unfold is_uint64, big_Uint64. apply Z.mod_pos_bound. lia.
Qed.

(** X7.  Over a whole run of either persisting program, crashed or not:
    every row handed to the store holds two 64-bit unsigned values; every
    row the store accepted had been handed to it; and there are no more
    accepted rows than rows handed over, and no more of those than headers
    fetched. *)
Theorem ledger_rows_invariant (v : variant) (ticks : list cycle_env) (w : Z) :
  let tr := snd (pollLoop v ticks w) in
  Forall (fun r => is_uint64 (fst r) /\ is_uint64 (snd r)) (ledgerCalls tr) /\
  incl (persisted tr) (ledgerCalls tr) /\
  (List.length (persisted tr) <= List.length (ledgerCalls tr)
                              <= List.length (fetchedHeights tr))%nat.
Proof.
  cbv zeta.
  apply (pollLoop_trace v
           (fun tr =>
              Forall (fun r => is_uint64 (fst r) /\ is_uint64 (snd r)) (ledgerCalls tr) /\
              incl (persisted tr) (ledgerCalls tr) /\
              (List.length (persisted tr) <= List.length (ledgerCalls tr)
                                          <= List.length (fetchedHeights tr))%nat)).
  - cbn. split; [constructor | split; [apply incl_refl | lia]].
  - intros a b (Ha1 & Ha2 & Ha3) (Hb1 & Hb2 & Hb3).
    rewrite ledgerCalls_app, persisted_app, fetchedHeights_app, !length_app.
    split; [apply Forall_app; now split|].
    split; [apply incl_app_app; assumption | lia].
  - cbn. split; [constructor | split; [apply incl_refl | lia]].
  - cbn. split; [constructor | split; [apply incl_refl | lia]].
  - intros env h. unfold processHeight, exportMetric.
    destruct (headerByNumber env h) as [[[d|] [n|]]|e];
      try (cbn; split; [constructor | split; [apply incl_refl | lia]]).
    assert (Hrow : Forall (fun r => is_uint64 (fst r) /\ is_uint64 (snd r))
                          [(big_Uint64 n, big_Uint64 d)]).
    { constructor; [|constructor]. split; apply big_Uint64_range. }
    destruct (dbExec env h); destruct v; try destruct (pushNow env h); cbn;
      (split; [exact Hrow | split; [|lia]]);
      try apply incl_refl; apply incl_nil_l.
Qed.

Lemma ledgerCalls_processHeight (v : variant) (env : cycle_env) (h : Z) :
  ledgerCalls (snd (processHeight v env h)) =
  match headerByNumber env h with
  | Ok hdr => rowOf hdr
  | Err _ => []
  end.
Proof.
  unfold processHeight, exportMetric, rowOf.
  destruct (headerByNumber env h) as [[[d|] [n|]]|e]; try reflexivity.
  destruct (dbExec env h); destruct v; reflexivity.
Qed.

Lemma persisted_processHeight (v : variant) (env : cycle_env) (h : Z) :
  persisted (snd (processHeight v env h)) =
  match headerByNumber env h with
  | Ok hdr => if heightFails env h then [] else rowOf hdr
  | Err _ => []
  end.
Proof.
  unfold processHeight, exportMetric, rowOf, heightFails.
  destruct (headerByNumber env h) as [[[d|] [n|]]|e]; try reflexivity;
    destruct (dbExec env h); try reflexivity;
    destruct v; try destruct (pushNow env h); reflexivity.
Qed.

(** X8.  In a tick whose headers are usable the store is called once for
    each height of the gap whose header was fetched, in height order, with
    the number and the difficulty read from that header, each cut to 64
    bits; the number of the row is the header's, not the height that was
    asked for.  The rows accepted are those of the heights that did not
    fail. *)
Theorem ledger_rows_of_tick (v : variant) (env : cycle_env) (w T : Z) :
  blockNumber env = Ok T ->
  headersUsable env w (observedTip T) = true ->
  ledgerCalls (snd (syncCycle v env w)) =
    flat_map (fun h => match headerByNumber env h with
                       | Ok hdr => rowOf hdr
                       | Err _ => []
                       end) (gap w (observedTip T)) /\
  persisted (snd (syncCycle v env w)) =
    flat_map (fun h => match headerByNumber env h with
                       | Ok hdr => if heightFails env h then [] else rowOf hdr
                       | Err _ => []
                       end) (gap w (observedTip T)).
Proof.
  intros Hb Hus.
  destruct (Z.le_gt_cases (observedTip T) w) as [Hle|Hgt].
  - rewrite (syncCycle_stale v env w T Hb Hle), gap_empty by lia.
    split; reflexivity.
  - rewrite (syncCycle_gap v env w T Hb Hgt Hus). cbn [snd].
    change (ledgerCalls (CallBlockNumber :: ?l)) with (ledgerCalls l).
    change (persisted (CallBlockNumber :: ?l)) with (persisted l).
    unfold iterations.
    induction (gap w (observedTip T)) as [|h l [IH1 IH2]]; [split; reflexivity|].
    cbn [flat_map].
    rewrite ledgerCalls_app, persisted_app, IH1, IH2,
      ledgerCalls_processHeight, persisted_processHeight.
    split; reflexivity.
Qed.

Lemma ledger_rows_of_tick_witness :
  headersUsable scenarioInsertFails 100 (observedTip 103) = true /\
  ledgerCalls (snd (syncCycle PersistOnly scenarioInsertFails 100)) =
    [(101, 5); (102, 6); (103, 7)] /\
  persisted (snd (syncCycle PersistOnly scenarioInsertFails 100)) =
    [(101, 5); (103, 7)].
Proof.
  assert (Hus : headersUsable scenarioInsertFails 100 (observedTip 103) = true)
    by (vm_compute; reflexivity).
  split; [exact Hus|].
  exact (ledger_rows_of_tick PersistOnly scenarioInsertFails 100 103 eq_refl Hus).
Defined.

(** ** No height twice *)

Lemma increasing_app (l1 l2 : list Z) :
  StronglySorted Z.lt l1 -> StronglySorted Z.lt l2 ->
  (forall a b, In a l1 -> In b l2 -> a < b) ->
  StronglySorted Z.lt (l1 ++ l2).
Proof.
  induction l1 as [|x l1 IH]; intros H1 H2 Hlt; [exact H2|].
  cbn [app]. apply StronglySorted_inv in H1. destruct H1 as [Hs Hx].
  constructor.
  - apply IH; [exact Hs | exact H2 |].
    intros a b Ha Hb. apply Hlt; [now right | exact Hb].
  - apply Forall_app. split; [exact Hx|].
    apply Forall_forall. intros b Hb. apply Hlt; [now left | exact Hb].
Qed.

Lemma increasing_app_l (l1 l2 : list Z) :
  StronglySorted Z.lt (l1 ++ l2) -> StronglySorted Z.lt l1.
Proof.
  induction l1 as [|x l1 IH]; intros H; [constructor|].
  cbn [app] in H. apply StronglySorted_inv in H. destruct H as [Hs Hx].
  apply Forall_app in Hx. constructor; [apply IH; exact Hs | apply Hx].
Qed.

Lemma gap_increasing (w t : Z) : StronglySorted Z.lt (gap w t).
Proof.
  remember (Z.to_nat (t - w)) as n eqn:Hn.
  revert w Hn. induction n as [|n IH]; intros w Hn.
  - rewrite gap_empty by lia. constructor.
  - rewrite gap_step by lia. constructor; [apply IH; lia|].
    apply Forall_forall. intros h Hh. apply gap_In in Hh. lia.
Qed.

Lemma gap_prefix (w t : Z) (k : nat) :
  StronglySorted Z.lt (firstn k (gap w t)) /\
  (forall h, In h (firstn k (gap w t)) -> w < h <= t).
Proof.
  split.
  - apply (increasing_app_l _ (skipn k (gap w t))).
    rewrite firstn_skipn. apply gap_increasing.
  - intros h Hh. apply gap_In. rewrite <- (firstn_skipn k (gap w t)).
    apply in_or_app. now left.
Qed.

(** What a tick fetches: nothing, with the watermark unchanged; or an
    initial segment of the gap up to a tip above the watermark, ending at
    that tip or in a panic. *)
Lemma syncCycle_fetched_cases (v : variant) (env : cycle_env) (w : Z) :
  (fetchedHeights (snd (syncCycle v env w)) = [] /\
   fst (syncCycle v env w) = Completed w) \/
  (exists T k,
     w < observedTip T /\
     fetchedHeights (snd (syncCycle v env w)) = firstn k (gap w (observedTip T)) /\
     (fst (syncCycle v env w) = Completed (observedTip T) \/
      fst (syncCycle v env w) = Panicked)).
Proof.
  destruct (blockNumber env) as [T|e] eqn:Hb.
  - destruct (Z.le_gt_cases (observedTip T) w) as [Hle|Hgt].
    + left. rewrite (syncCycle_stale v env w T Hb Hle). split; reflexivity.
    + right. destruct (syncCycle_fetches_prefix v env w T Hb Hgt) as [k Hk].
      exists T, k. split; [lia|]. split; [exact Hk|].
      unfold syncCycle. rewrite Hb. fold (observedTip T). cbv zeta.
      replace (observedTip T >? w) with true by lia.
      destruct (heightLoop v env (observedTip T) (w + 1)) as [[|] tr];
        [now left | now right].
  - left. rewrite (syncCycle_tip_failed v env w e Hb). split; reflexivity.
Qed.

(** X10.  Over a whole run of either persisting program, crashed or not, the
    heights fetched are strictly increasing and all lie above the starting
    watermark: no height is ever fetched twice, and none at or below the
    start. *)
Theorem run_never_refetches (v : variant) (ticks : list cycle_env) (w : Z) :
  StronglySorted Z.lt (fetchedHeights (snd (pollLoop v ticks w))) /\
  (forall h, In h (fetchedHeights (snd (pollLoop v ticks w))) -> w < h) /\
  NoDup (fetchedHeights (snd (pollLoop v ticks w))).
Proof.
  assert (H : StronglySorted Z.lt (fetchedHeights (snd (pollLoop v ticks w))) /\
              (forall h, In h (fetchedHeights (snd (pollLoop v ticks w))) -> w < h)).
  { revert w. induction ticks as [|env rest IH]; intros w.
    - split; [constructor | intros h []].
    - rewrite pollLoop_cons.
      destruct (syncCycle_fetched_cases v env w)
        as [[Hf Hc] | (T & k & Hlt & Hf & [Hc|Hc])]; rewrite Hc; cbn [snd].
      + rewrite fetchedHeights_app, Hf. apply IH.
      + destruct (gap_prefix w (observedTip T) k) as [Hs Hin].
        destruct (IH (observedTip T)) as [IHs IHin].
        rewrite fetchedHeights_app, Hf. split.
        * apply increasing_app; [exact Hs | exact IHs |].
          intros a b Ha Hb. specialize (Hin a Ha). specialize (IHin b Hb). lia.
        * intros h Hh. apply in_app_or in Hh. destruct Hh as [Hh|Hh].
          -- apply Hin in Hh. lia.
          -- apply IHin in Hh. lia.
      + destruct (gap_prefix w (observedTip T) k) as [Hs Hin].
        rewrite Hf. split; [exact Hs|]. intros h Hh. apply Hin in Hh. lia. }
  destruct H as [Hs Hin]. split; [exact Hs|]. split; [exact Hin|].
  revert Hs. generalize (fetchedHeights (snd (pollLoop v ticks w))).
  intros l Hs. induction Hs as [|x l Hs IH Hx]; constructor; [|exact IH].
  intros Hx'. rewrite Forall_forall in Hx. specialize (Hx x Hx'). lia.
Qed.

(** ** The watermark of a run *)

Lemma syncCycle_completed_max (v : variant) (env : cycle_env) (w w' : Z) :
  fst (syncCycle v env w) = Completed w' ->
  w' = match blockNumber env with
       | Ok T => Z.max w (observedTip T)
       | Err _ => w
       end.
Proof.
  unfold syncCycle. destruct (blockNumber env) as [T|e].
  - fold (observedTip T). cbv zeta.
    destruct (observedTip T >? w) eqn:Hc.
    + destruct (heightLoop v env (observedTip T) (w + 1)) as [[|] tr]; cbn.
      * intros [= <-]. lia.
      * discriminate.
    + cbn. intros [= <-]. lia.
  - cbn. intros [= <-]. reflexivity.
Qed.

Lemma syncCycle_one_query (v : variant) (env : cycle_env) (w : Z) :
  tipQueries (snd (syncCycle v env w)) = 1%nat.
Proof.
  assert (Hloop : forall cur h, tipQueries (snd (heightLoop v env cur h)) = O).
  { intros cur h.
    apply (heightLoop_trace v (fun tr => tipQueries tr = O)); try reflexivity.
    - intros a b Ha Hb. now rewrite tipQueries_app, Ha, Hb.
    - intros env' h'. unfold processHeight, exportMetric.
      destruct (headerByNumber env' h') as [[[d|] [n|]]|e]; try reflexivity.
      destruct (dbExec env' h'); destruct v; reflexivity. }
  unfold syncCycle. destruct (blockNumber env) as [T|e]; [|reflexivity].
  cbv zeta. destruct (_ >? w); [|reflexivity].
  specialize (Hloop (big_NewInt (int64 T)) (w + 1)).
  destruct (heightLoop v env _ _) as [[|] tr]; cbn [snd] in *;
    change (tipQueries (CallBlockNumber :: tr)) with (S (tipQueries tr));
    now rewrite Hloop.
Qed.

(** X11.  As long as a run has not crashed, its watermark is the highest of
    the starting watermark and the tips observed so far, and it has made
    exactly one tip query per tick; in any run the watermark is at most that
    height and there is at most one tip query per tick. *)
Theorem watermark_is_highest_tip (v : variant) (ticks : list cycle_env) (w : Z) :
  (fst (fst (pollLoop v ticks w)) = Receiving ->
   heightAfter v ticks w = highestTip ticks w /\
   tipQueries (snd (pollLoop v ticks w)) = List.length ticks) /\
  heightAfter v ticks w <= highestTip ticks w /\
  (tipQueries (snd (pollLoop v ticks w)) <= List.length ticks)%nat.
Proof.
  revert w. induction ticks as [|env rest IH]; intros w.
  - cbn. repeat split; lia.
  - rewrite pollLoop_cons, heightAfter_cons.
    unfold highestTip. cbn [fold_left List.length].
    pose proof (syncCycle_one_query v env w) as Hq.
    destruct (fst (syncCycle v env w)) as [h|] eqn:Hc; cbn [fst snd].
    + apply syncCycle_completed_max in Hc. rewrite <- Hc.
      destruct (IH h) as (IHr & IHle & IHq). fold (highestTip rest h).
      rewrite tipQueries_app, Hq. split; [|split]; [|exact IHle|lia].
      intros Hs. destruct (IHr Hs) as [-> ->]. split; reflexivity.
    + rewrite Hq. split; [discriminate|]. split; [|lia].
      assert (Hmono : forall l a b, a <= b ->
                a <= fold_left (fun acc env0 =>
                                  match blockNumber env0 with
                                  | Ok T => Z.max acc (observedTip T)
                                  | Err _ => acc
                                  end) l b).
      { induction l as [|x l IHl]; intros a b Hab; [exact Hab|].
        cbn [fold_left]. apply IHl. destruct (blockNumber x); lia. }
      apply Hmono. destruct (blockNumber env); lia.
Qed.

Lemma watermark_is_highest_tip_witness :
  heightAfter (PersistAndPush "gw")
    [scenarioFetchFails; scenarioTipFails; scenarioSteady; scenarioFetchFails] 100
  = 103 /\
  tipQueries (snd (pollLoop (PersistAndPush "gw")
    [scenarioFetchFails; scenarioTipFails; scenarioSteady; scenarioFetchFails] 100))
  = 4%nat.
Proof.
  destruct (proj1 (watermark_is_highest_tip (PersistAndPush "gw")
    [scenarioFetchFails; scenarioTipFails; scenarioSteady; scenarioFetchFails] 100)
    eq_refl) as [Hw Hq].
  split; [rewrite Hw; reflexivity | exact Hq].
Defined.

(** ** Push failures *)

Section PushAnswers.

Variable v : variant.
Variable p : Z -> result unit.

Lemma processHeight_withPush (env : cycle_env) (h : Z) :
  fst (processHeight v (withPush env p) h) = fst (processHeight v env h) /\
  calls (snd (processHeight v (withPush env p) h)) =
  calls (snd (processHeight v env h)).
Proof.
  unfold processHeight, exportMetric, withPush.
  cbn [headerByNumber dbExec pushNow].
  destruct (headerByNumber env h) as [[[d|] [n|]]|e]; try (split; reflexivity).
  destruct (dbExec env h); destruct v; split; reflexivity.
Qed.

Lemma heightLoop_withPush (env : cycle_env) (currentHeight h : Z) :
  fst (heightLoop v (withPush env p) currentHeight h) =
  fst (heightLoop v env currentHeight h) /\
  calls (snd (heightLoop v (withPush env p) currentHeight h)) =
  calls (snd (heightLoop v env currentHeight h)).
Proof.
  remember (Z.to_nat (currentHeight + 1 - h)) as n eqn:Hn.
  revert h Hn. induction n as [|n IH]; intros h Hn;
    rewrite (heightLoop_eq v env), (heightLoop_eq v (withPush env p)).
  - replace (h <=? currentHeight) with false by lia. split; reflexivity.
  - replace (h <=? currentHeight) with true by lia.
    destruct (processHeight_withPush env h) as [Hf Hc].
    destruct (processHeight v (withPush env p) h) as [st' tr'].
    destruct (processHeight v env h) as [st tr].
    cbn [fst snd] in Hf, Hc. subst st'.
    destruct st; cbn [fst snd]; [|split; [reflexivity | exact Hc]].
    destruct (IH (h + 1) ltac:(lia)) as [IHf IHc].
    rewrite !calls_app, Hc, IHc, IHf. split; reflexivity.
Qed.

Lemma syncCycle_withPush (env : cycle_env) (w : Z) :
  fst (syncCycle v (withPush env p) w) = fst (syncCycle v env w) /\
  calls (snd (syncCycle v (withPush env p) w)) = calls (snd (syncCycle v env w)).
Proof.
  unfold syncCycle. cbn [withPush blockNumber].
  destruct (blockNumber env) as [T|e]; [|split; reflexivity].
  cbv zeta. destruct (_ >? w); [|split; reflexivity].
  destruct (heightLoop_withPush env (big_NewInt (int64 T)) (w + 1)) as [Hf Hc].
  fold (withPush env p).
  destruct (heightLoop v (withPush env p) _ _) as [st' tr'].
  destruct (heightLoop v env _ _) as [st tr].
  cbn [fst snd] in Hf, Hc. subst st'.
  destruct st; cbn [fst snd];
    change (calls (CallBlockNumber :: ?l)) with (CallBlockNumber :: calls l);
    rewrite Hc; split; reflexivity.
Qed.

End PushAnswers.

(** X12.  The answers of the push gateway change nothing but log lines.
    Whatever they are replaced with, in every tick of a run, the run ends in
    the same state with the same watermark and has made the same calls, in
    the same order, on the node, the store, the gauge and the pusher; the
    same holds for a tick of the tip-only program. *)
Theorem push_answers_only_logged (v : variant) (p : Z -> result unit)
    (ticks : list cycle_env) (w : Z) :
  fst (pollLoop v (map (fun env => withPush env p) ticks) w) =
    fst (pollLoop v ticks w) /\
  calls (snd (pollLoop v (map (fun env => withPush env p) ticks) w)) =
    calls (snd (pollLoop v ticks w)) /\
  (forall gw env,
     calls (TipGauge.pollOnce gw (withPush env p)) =
     calls (TipGauge.pollOnce gw env)).
Proof.
  split; [|split].
  - revert w. induction ticks as [|env rest IH]; intros w; [reflexivity|].
    cbn [map]. rewrite !pollLoop_cons.
    destruct (syncCycle_withPush v p env w) as [-> _].
    destruct (fst (syncCycle v env w)) as [h|]; cbn [fst]; [|reflexivity].
    unfold heightAfter. now rewrite IH.
  - revert w. induction ticks as [|env rest IH]; intros w; [reflexivity|].
    cbn [map]. rewrite !pollLoop_cons.
    destruct (syncCycle_withPush v p env w) as [-> Hc].
    destruct (fst (syncCycle v env w)) as [h|]; cbn [snd]; [|exact Hc].
    now rewrite !calls_app, Hc, IH.
  - intros gw env. unfold TipGauge.pollOnce, withPush.
    cbn [blockNumber headerByNumber pushNow].
    destruct (blockNumber env) as [T|e]; [|reflexivity].
    cbv zeta. destruct (headerByNumber env _) as [[[d|] n]|e]; reflexivity.
Qed.

(** ** The range of the watermark *)

(** X13.  The watermark never leaves the range of a signed 64-bit integer:
    it starts there, whether taken from the start flag or from the tip at
    launch, and every tick keeps it there, although it is held in an
    unbounded integer and the node may report any unsigned 64-bit height. *)
Theorem watermark_fits_int64 (v : variant) (rpc dsn : string) (startHeight : Z)
    (e : launch_env) (ticks : list cycle_env) (w : Z) :
  is_int64 startHeight ->
  startup rpc dsn startHeight e = Polling w ->
  is_int64 w /\ is_int64 (heightAfter v ticks w).
Proof.
  intros Hs Hstart.
  assert (Hw : is_int64 w).
  { unfold startup, initialHeight in Hstart.
    destruct (_ || _); [discriminate|].
    destruct (dial e); [|discriminate].
    destruct (sqlOpen e); [|discriminate].
    destruct (startHeight >=? 0).
    - injection Hstart as <-. exact Hs.
    - destruct (blockNumberAtLaunch e) as [T|]; [|discriminate].
      injection Hstart as <-. apply int64_range. }
  split; [exact Hw|].
  clear Hstart. revert w Hw. induction ticks as [|env rest IH]; intros w Hw.
  - exact Hw.
  - rewrite heightAfter_cons.
    destruct (fst (syncCycle v env w)) as [h|] eqn:Hc; [|exact Hw].
    apply IH.
    destruct (syncCycle_completed v env w h Hc) as [->|(T & _ & _ & ->)];
      [exact Hw | apply int64_range].
Qed.

Lemma watermark_fits_int64_witness :
  is_int64 (-1) /\
  startup "rpc" "dsn" (-1) (mkLaunch (Ok tt) (Ok tt) (Ok (2 ^ 64 - 1))) = Polling (-1) /\
  is_int64 (heightAfter PersistOnly [scenarioHugeTip; scenarioSteady] (-1)).
Proof.
  assert (Hs : is_int64 (-1)) by (unfold is_int64; lia).
  assert (Hl : startup "rpc" "dsn" (-1)
                 (mkLaunch (Ok tt) (Ok tt) (Ok (2 ^ 64 - 1))) = Polling (-1))
    by reflexivity.
  split; [exact Hs|]. split; [exact Hl|].
  exact (proj2 (watermark_fits_int64 PersistOnly "rpc" "dsn" (-1)
                  (mkLaunch (Ok tt) (Ok tt) (Ok (2 ^ 64 - 1)))
                  [scenarioHugeTip; scenarioSteady] (-1) Hs Hl)).
Defined.
